(** * Genyu: the prompt-learning store and the image-editor history

    A shallow embedding of
    - [SUPABASE_SCHEMA.sql]: the tables [dop_prompt_records] and
      [dop_model_learnings] and the two plpgsql functions
      [search_similar_prompts] and [get_model_best_keywords];
    - the [useImageEditor] hook: the state container of the image editor
      and its history actions.

    Conventions of the embedding.
    - A table is the list of its rows in the order a scan meets them.
    - A nullable column is an [option]; [None] is SQL NULL.
    - A [REAL] or [FLOAT] value is a number, an infinity or NaN, see
      [Sql.float]; the numbers are rationals, which they are compared as.
      How the result of an arithmetic operation is rounded to a float is
      a parameter, see [Sql.rounding].
    - [INT] is [Z]; [TEXT] is [string]; [UUID] is [N]; a timestamp is [Z].
    - Conditions follow SQL's three-valued logic; a row passes a WHERE
      clause only when the condition is true (not false, not unknown).
    - A statement either returns a value or raises; see [Sql.result].
    - What SQL leaves to the executor (the rows an index scan visits, the
      order of rows with equal sort keys) is a parameter of the function
      that depends on it. *)

From Stdlib Require Import ZArith QArith Lqa List String Bool Lia.
From Stdlib Require Import Sorting.Sorted Sorting.Permutation.
Import ListNotations.

(* ================================================================== *)
(** * Part I: definitions *)
(* ================================================================== *)

(** ** The fragment of SQL the two functions are written in *)

Module Sql.

(** Three-valued truth values: [None] is unknown (NULL). *)
Definition tvl := option bool.

Definition and3 (a b : tvl) : tvl :=
  match a, b with
  | Some false, _ | _, Some false => Some false
  | Some true, Some true => Some true
  | _, _ => None
  end.

Definition or3 (a b : tvl) : tvl :=
  match a, b with
  | Some true, _ | _, Some true => Some true
  | Some false, Some false => Some false
  | _, _ => None
  end.

(** [x IS NULL] and [x IS NOT NULL] are never unknown. *)
Definition is_null {A : Type} (x : option A) : tvl :=
  match x with None => Some true | Some _ => Some false end.

Definition is_not_null {A : Type} (x : option A) : tvl :=
  match x with None => Some false | Some _ => Some true end.

(** A strict binary comparison: unknown as soon as one side is NULL. *)
Definition cmp3 {A B : Type} (f : A -> B -> bool)
  (x : option A) (y : option B) : tvl :=
  match x, y with
  | Some a, Some b => Some (f a b)
  | _, _ => None
  end.

(** A value of type [REAL] or [FLOAT]. *)
Inductive float : Set :=
| finite (q : Q)
| infinity
| minus_infinity
| NaN.

(** The order of floats: the order of the numbers, with -Infinity below
    and Infinity above them; NaN is equal to itself and greater than every
    other value. *)
Definition float_le (a b : float) : bool :=
  match a, b with
  | _, NaN => true
  | NaN, _ => false
  | _, infinity => true
  | infinity, _ => false
  | minus_infinity, _ => true
  | _, minus_infinity => false
  | finite x, finite y => Qle_bool x y
  end.

Definition float_ge (a b : float) : bool := float_le b a.

(** Arithmetic on floats rounds its result: [round q] is the float that
    stands for the exact result [q]. Rounding keeps the order of the
    results. *)
Record rounding : Type := mk_rounding {
  round :> Q -> Q;
  round_monotone : forall x y : Q, x <= y -> round x <= round y
}.

(** [1 - d] *)
Definition one_minus (float8 : rounding) (d : float) : float :=
  match d with
  | finite q => finite (float8 (1 - q))
  | infinity => minus_infinity
  | minus_infinity => infinity
  | NaN => NaN
  end.

(** [a >= b] on floats, [a = b] on text and on booleans. *)
Definition ge3 : option float -> option float -> tvl := cmp3 float_ge.
Definition text_eq3 : option string -> option string -> tvl := cmp3 String.eqb.
Definition bool_eq3 : option bool -> option bool -> tvl := cmp3 Bool.eqb.

(** WHERE keeps a row only when its condition is true. *)
Definition holds (c : tvl) : bool :=
  match c with Some true => true | _ => false end.

(** The errors the modelled statements can raise, by SQLSTATE name. *)
Inductive sqlstate : Set :=
| invalid_row_count_in_limit_clause   (* 2201W: LIMIT must not be negative *)
| data_exception                      (* 22000: vector dimensions *)
| numeric_value_out_of_range          (* 22003 *)
| invalid_parameter_value             (* 22023 *)
| invalid_text_representation         (* 22P02 *)
| check_violation                     (* 23514 *)
| unique_violation.                   (* 23505 *)

Inductive result (A : Type) : Type :=
| Ok (a : A)
| Raise (e : sqlstate).
Arguments Ok {A} a.
Arguments Raise {A} e.

(** WHERE with a condition that can raise: the rows for which it is
    true, or the first error met. *)
Fixpoint select_where {A : Type} (condition : A -> result bool)
  (rows : list A) : result (list A) :=
  match rows with
  | [] => Ok []
  | r :: rows' =>
      match condition r with
      | Raise e => Raise e
      | Ok keep =>
          match select_where condition rows' with
          | Raise e => Raise e
          | Ok kept => Ok (if keep then r :: kept else kept)
          end
      end
  end.

(** What a condition says of a row when it does not raise. *)
Definition verdict {A : Type} (condition : A -> result bool) (r : A)
  : bool :=
  match condition r with
  | Ok b => b
  | Raise _ => false
  end.

(** ORDER BY: the rows in non-decreasing order of [key] under [le]. SQL
    leaves the relative order of rows with equal keys to the executor:
    [tiebreak] is the executor's choice, a rank for every row, that
    decides between rows with equal keys; rows that have the same rank as
    well stay in scan order. *)
Section OrderBy.
Context {A K : Type} (key : A -> K) (le : K -> K -> bool).
Variable tiebreak : A -> nat.

(** [x] is put before [y]. *)
Definition before (x y : A) : bool :=
  le (key x) (key y) &&
  (negb (le (key y) (key x)) || Nat.leb (tiebreak x) (tiebreak y)).

Fixpoint insert_row (x : A) (l : list A) : list A :=
  match l with
  | [] => [x]
  | y :: l' =>
      if before x y then x :: l else y :: insert_row x l'
  end.

Fixpoint order_by (l : list A) : list A :=
  match l with
  | [] => []
  | x :: l' => insert_row x (order_by l')
  end.

(** [a] may come before [b] in the output. *)
Definition key_le (a b : A) : Prop := le (key a) (key b) = true.

End OrderBy.

(** Orders on nullable keys: ASC puts NULLs last, DESC puts them first. *)
Definition asc_nulls_last {K : Type} (le : K -> K -> bool)
  (a b : option K) : bool :=
  match a, b with
  | Some x, Some y => le x y
  | Some _, None => true
  | None, Some _ => false
  | None, None => true
  end.

Definition desc_nulls_first {K : Type} (le : K -> K -> bool)
  (a b : option K) : bool :=
  match a, b with
  | Some x, Some y => le y x
  | None, _ => true
  | Some _, None => false
  end.

(** LIMIT n over [rows], the outcome of the query below it. The count is
    looked at before any row is asked for: a negative count is an error,
    and a count of 0 returns no row without running the query below, so
    that an error of that query is not raised. Otherwise the query runs
    and its first [n] rows are returned. *)
Definition limit {A : Type} (n : Z) (rows : result (list A))
  : result (list A) :=
  if (n <? 0)%Z then Raise invalid_row_count_in_limit_clause
  else if (n =? 0)%Z then Ok []
  else
    match rows with
    | Ok l => Ok (firstn (Z.to_nat n) l)
    | Raise e => Raise e
    end.

End Sql.

(** ** Column types *)

Definition uuid := N.
Definition timestamptz := Z.

(** A pgvector value: its components, which are numbers (pgvector admits
    neither NaN nor an infinity in a vector). The column type
    [vector(768)] adds the dimension, checked when a row is written. *)
Definition vector := list Q.
Definition embedding_dim : nat := 768.

(** ** Table [dop_prompt_records] *)

Module dop_prompt_records.

Record row : Type := mk_row {
  id : uuid;
  user_id : option uuid;
  original_prompt : string;                (* NOT NULL *)
  normalized_prompt : string;              (* NOT NULL *)
  embedding : option vector;
  model_id : string;                       (* NOT NULL *)
  model_type : string;                     (* NOT NULL *)
  mode : string;                           (* NOT NULL, CHECK *)
  aspect_ratio : option string;
  quality_score : option Sql.float;
  full_body_score : option Sql.float;
  background_score : option Sql.float;
  face_clarity_score : option Sql.float;
  match_score : option Sql.float;
  was_approved : option bool;
  was_retried : option bool;
  retry_count : option Z;
  created_at : option timestamptz;
  keywords : option (list string);
  tags : option (list string)
}.

Definition table := list row.

(** CHECK (mode IN ('character', 'scene')) *)
Definition mode_check (m : string) : bool :=
  (m =? "character")%string || (m =? "scene")%string.

End dop_prompt_records.

(** ** Function [search_similar_prompts] *)

Module Search.
Import Sql dop_prompt_records.

(** The rows of RETURNS TABLE. *)
Record similar_prompt : Type := mk_similar_prompt {
  r_id : uuid;
  r_original_prompt : string;
  r_normalized_prompt : string;
  r_model_type : string;
  r_mode : string;
  r_quality_score : option float;
  similarity : option float
}.

(** How the executor reads the table. A sequential scan visits every row.
    The planner may instead answer ORDER BY ... LIMIT through the ivfflat
    index [dop_prompt_embedding_idx], which scans only the lists it
    probes. *)
Inductive scan : Type :=
| sequential
| ivfflat (probed : row -> bool).

Definition visited (plan : scan) (r : row) : bool :=
  match plan with
  | sequential => true
  | ivfflat probed => probed r
  end.

Section WithExecutor.

(** The rounding of FLOAT, which is double precision. *)
Variable float8 : rounding.

(** The operator [<=>] of the pgvector extension (cosine distance), on
    two vectors of the same dimension. Its value is a float: it is NaN
    when one of the vectors has norm zero. *)
Variable cosine_distance : vector -> vector -> float.

(** The plan, and the order the executor gives to rows that are at the
    same distance. *)
Variable plan : scan.
Variable tiebreak : row -> nat.

(** [e <=> query_embedding]: the operator raises "different vector
    dimensions" when the two vectors do not have the same number of
    components. The argument [query_embedding vector(768)] does not stop
    another dimension: the modifier of an argument type is not
    enforced. *)
Definition compare (e query_embedding : vector) : result float :=
  if Nat.eqb (List.length e) (List.length query_embedding)
  then Ok (cosine_distance e query_embedding)
  else Raise data_exception.

(** [r.embedding <=> query_embedding]: NULL for a NULL embedding, without
    a call of the operator. *)
Definition distance (query_embedding : vector) (r : row)
  : result (option float) :=
  match embedding r with
  | None => Ok None
  | Some e =>
      match compare e query_embedding with
      | Ok d => Ok (Some d)
      | Raise e => Raise e
      end
  end.

(** [1 - (r.embedding <=> query_embedding)] *)
Definition similarity_of (query_embedding : vector) (r : row)
  : result (option float) :=
  match distance query_embedding r with
  | Ok d => Ok (option_map (one_minus float8) d)
  | Raise e => Raise e
  end.

(** The first five conjuncts of the WHERE clause, which call no
    operator that can raise. The score, a REAL, is compared with the
    literal 0.7 as a FLOAT; no REAL lies between that FLOAT and 7/10, so
    a stored score is on the same side of both. *)
Definition plain_conditions (match_model_type match_mode : option string)
  (r : row) : tvl :=
  and3 (and3 (and3 (and3
    (bool_eq3 (was_approved r) (Some true))
    (ge3 (quality_score r) (Some (finite (7 # 10)))))
    (or3 (is_null match_model_type)
         (text_eq3 (Some (model_type r)) match_model_type)))
    (or3 (is_null match_mode)
         (text_eq3 (Some (mode r)) match_mode)))
    (is_not_null (embedding r)).

(** The WHERE clause on one row. The conjuncts of a WHERE clause are
    evaluated one after the other, the cheaper first, and a row is
    dropped at the first one that is not true: the last conjunct, which
    calls [<=>], is evaluated only for the rows that pass the five
    others. *)
Definition where_clause (query_embedding : vector)
  (match_model_type match_mode : option string)
  (similarity_threshold : float) (r : row) : result bool :=
  if holds (plain_conditions match_model_type match_mode r) then
    match similarity_of query_embedding r with
    | Ok s => Ok (holds (ge3 s (Some similarity_threshold)))
    | Raise e => Raise e
    end
  else Ok false.

(** The ORDER BY key and the similarity of a row that has passed the
    WHERE clause: the operator has been called on it and has not
    raised. *)
Definition distance_key (query_embedding : vector) (r : row)
  : option float :=
  option_map (fun e => cosine_distance e query_embedding) (embedding r).

(** The SELECT list. *)
Definition select (query_embedding : vector) (r : row) : similar_prompt :=
  {| r_id := id r;
     r_original_prompt := original_prompt r;
     r_normalized_prompt := normalized_prompt r;
     r_model_type := model_type r;
     r_mode := mode r;
     r_quality_score := quality_score r;
     similarity :=
       option_map (one_minus float8) (distance_key query_embedding r) |}.

(** The start of the scan. An index scan first compares the query with
    the centres of the lists of the index, which have the dimension of
    the column, and raises when the query has another one. *)
Definition begin_scan (query_embedding : vector) : result unit :=
  match plan with
  | sequential => Ok tt
  | ivfflat _ =>
      if Nat.eqb (List.length query_embedding) embedding_dim then Ok tt
      else Raise data_exception
  end.

(** The rows that pass the WHERE clause, in ORDER BY order. *)
Definition matching_rows (records : table) (query_embedding : vector)
  (match_model_type match_mode : option string)
  (similarity_threshold : float) : result (list row) :=
  match begin_scan query_embedding with
  | Raise e => Raise e
  | Ok _ =>
      match select_where
              (where_clause query_embedding match_model_type match_mode
                 similarity_threshold)
              (filter (visited plan) records) with
      | Raise e => Raise e
      | Ok rows =>
          Ok (order_by (distance_key query_embedding)
                (asc_nulls_last float_le) tiebreak rows)
      end
  end.

Definition search_similar_prompts (records : table)
  (query_embedding : vector)
  (match_model_type match_mode : option string)
  (match_count : Z) (similarity_threshold : float)
  : result (list similar_prompt) :=
  limit match_count
    match matching_rows records query_embedding match_model_type
            match_mode similarity_threshold with
    | Ok rows => Ok (map (select query_embedding) rows)
    | Raise e => Raise e
    end.

End WithExecutor.

(** The declared defaults of the optional arguments. *)
Definition default_match_count : Z := 5.
Definition default_similarity_threshold : float := finite (7 # 10).

End Search.

(** ** Table [dop_model_learnings] *)

(** A JSONB value as the two columns are read: an object, or a value
    that is not one (an array or a scalar; the column type admits them).
    An object is its members in storage order, one per key, each with the
    text that [->>] gives for its value: NULL for a JSON null, the text
    of a string, the digits of a number. jsonb stores the keys of an
    object shortest first, keys of equal length in byte order. *)
Inductive jsonb : Type :=
| jsonb_object (members : list (string * option string))
| jsonb_not_object.

(** [jsonb_object_keys(o)]: the keys, in storage order; it raises "cannot
    call jsonb_object_keys on a scalar" (or "on an array"). *)
Definition jsonb_object_keys (o : jsonb) : Sql.result (list string) :=
  match o with
  | jsonb_object members => Sql.Ok (map fst members)
  | jsonb_not_object => Sql.Raise Sql.invalid_parameter_value
  end.

(** [o ->> k]: the text of the value under [k], NULL when [k] is absent,
    when the value is a JSON null and when [o] is not an object. *)
Definition jsonb_get_text (o : jsonb) (k : string) : option string :=
  match o with
  | jsonb_object members =>
      match find (fun kv => (fst kv =? k)%string) members with
      | Some (_, text) => text
      | None => None
      end
  | jsonb_not_object => None
  end.

Module dop_model_learnings.

Record row : Type := mk_row {
  id : uuid;
  model_type : string;                     (* NOT NULL UNIQUE *)
  total_generations : option Z;
  approved_count : option Z;
  avg_quality_score : option Sql.float;
  approval_rate : option Sql.float;
  best_aspect_ratios : option jsonb;
  common_keywords : option jsonb;
  successful_patterns : option (list string);
  updated_at : option timestamptz
}.

Definition table := list row.

End dop_model_learnings.

(** ** Function [get_model_best_keywords] *)

Module Keywords.
Import Sql dop_model_learnings.

(** The rows of RETURNS TABLE (keyword TEXT, frequency INT). *)
Definition keyword_row : Type := (string * option Z)%type.

Definition keyword (k : keyword_row) : string := fst k.
Definition frequency (k : keyword_row) : option Z := snd k.

Section WithExecutor.

(** The cast of a text to INT, PostgreSQL's [int4in]: the number, or the
    error "invalid input syntax for type integer" (22P02) or "value ...
    is out of range for type integer" (22003). *)
Variable int4in : string -> result Z.

(** The order the executor gives to rows of the same frequency. *)
Variable tiebreak : keyword_row -> nat.

(** [(text)::INT]: NULL stays NULL. *)
Definition to_int (text : option string) : result (option Z) :=
  match text with
  | None => Ok None
  | Some t =>
      match int4in t with
      | Ok n => Ok (Some n)
      | Raise e => Raise e
      end
  end.

(** The select list of the inner query for the keys of one object, one
    key after the other: the first cast that raises ends the query. The
    two calls of [jsonb_object_keys] advance together, so each key is
    paired with its own value. *)
Fixpoint keyword_frequencies (o : jsonb) (keys : list string)
  : result (list keyword_row) :=
  match keys with
  | [] => Ok []
  | k :: keys' =>
      match to_int (jsonb_get_text o k) with
      | Raise e => Raise e
      | Ok f =>
          match keyword_frequencies o keys' with
          | Raise e => Raise e
          | Ok rows => Ok ((k, f) :: rows)
          end
      end
  end.

(** The inner query on one row of the table; a NULL [common_keywords]
    yields no row. *)
Definition keywords_of_row (r : row) : result (list keyword_row) :=
  match common_keywords r with
  | None => Ok []
  | Some o =>
      match jsonb_object_keys o with
      | Raise e => Raise e
      | Ok keys => keyword_frequencies o keys
      end
  end.

(** The rows of the inner query for some rows of the table, in scan
    order. *)
Fixpoint keywords_of_rows (rows : list row) : result (list keyword_row) :=
  match rows with
  | [] => Ok []
  | r :: rows' =>
      match keywords_of_row r with
      | Raise e => Raise e
      | Ok first =>
          match keywords_of_rows rows' with
          | Raise e => Raise e
          | Ok rest => Ok (first ++ rest)
          end
      end
  end.

(** The inner query [k]. *)
Definition keyword_rows (learnings : table) (target_model_type : string)
  : result (list keyword_row) :=
  keywords_of_rows
    (filter (fun r => (model_type r =? target_model_type)%string) learnings).

Definition get_model_best_keywords (learnings : table)
  (target_model_type : string) (keyword_limit : Z)
  : result (list keyword_row) :=
  limit keyword_limit
    match keyword_rows learnings target_model_type with
    | Ok rows =>
        Ok (order_by frequency (desc_nulls_first Z.leb) tiebreak rows)
    | Raise e => Raise e
    end.

End WithExecutor.

Definition default_keyword_limit : Z := 20.

End Keywords.

(** ** The database and the statements run against it *)

Record database : Type := mk_database {
  prompt_records : dop_prompt_records.table;
  model_learnings : dop_model_learnings.table
}.

(** A statement maps the database to its outcome and the database it
    leaves behind. *)
Module Db.
Import Sql.





End Db.

(** ** Writing [dop_prompt_records] *)

Module Store.
Import Sql dop_prompt_records.

(** Modelled from the spec: the draft that [append] receives; the code
    that builds it is not under src/. It holds the column values an INSERT
    supplies. The NOT NULL columns are always given; for the others [None]
    leaves the column out, so that it takes its DEFAULT (NULL where the
    table declares none). The scores are given as REAL values. The
    embedding is given as its components, numbers that a vector can
    hold, before the coercion to [vector(768)]. *)
Record PromptRecordDraft : Type := mk_draft {
  d_user_id : option uuid;
  d_original_prompt : string;
  d_normalized_prompt : string;
  d_embedding : option (list Q);
  d_model_id : string;
  d_model_type : string;
  d_mode : string;
  d_aspect_ratio : option string;
  d_quality_score : option float;
  d_full_body_score : option float;
  d_background_score : option float;
  d_face_clarity_score : option float;
  d_match_score : option float;
  d_was_approved : option bool;
  d_was_retried : option bool;
  d_retry_count : option Z;
  d_created_at : option timestamptz;
  d_keywords : option (list string);
  d_tags : option (list string)
}.

(** [x] when supplied, else the column's DEFAULT. *)
Definition or_default {A : Type} (x : option A) (dflt : A) : option A :=
  match x with Some a => Some a | None => Some dflt end.

(** The coercion of the supplied components to [vector(768)]: pgvector
    rejects any other dimension ("expected 768 dimensions, not n"). *)
Definition to_vector768 (e : option (list Q)) : result (option vector) :=
  match e with
  | None => Ok None
  | Some v =>
      if Nat.eqb (List.length v) embedding_dim then Ok (Some v)
      else Raise data_exception
  end.

(** The row an INSERT builds: [new_id] is the value [gen_random_uuid()]
    returns, [now] the current time. *)
Definition new_row (new_id : uuid) (now : timestamptz)
  (d : PromptRecordDraft) (e : option vector) : row :=
  {| id := new_id;
     user_id := d_user_id d;
     original_prompt := d_original_prompt d;
     normalized_prompt := d_normalized_prompt d;
     embedding := e;
     model_id := d_model_id d;
     model_type := d_model_type d;
     mode := d_mode d;
     aspect_ratio := or_default (d_aspect_ratio d) "16:9"%string;
     quality_score := d_quality_score d;
     full_body_score := d_full_body_score d;
     background_score := d_background_score d;
     face_clarity_score := d_face_clarity_score d;
     match_score := d_match_score d;
     was_approved := or_default (d_was_approved d) false;
     was_retried := or_default (d_was_retried d) false;
     retry_count := or_default (d_retry_count d) 0%Z;
     created_at := or_default (d_created_at d) now;
     keywords := d_keywords d;
     tags := d_tags d |}.

(** INSERT INTO dop_prompt_records, the statement behind the spec's
    [append]: the value or the error, and the table afterwards. What it
    enforces is what the table declares: the row is built (coercing the
    embedding to the column type), then the CHECK constraint and the
    primary key are enforced; a statement that raises leaves the table as
    it was. The new row goes to the end of the heap. Row-level security
    and the foreign key to [auth.users] belong to the authorization layer
    and are left out. *)
Definition insert (records : table) (new_id : uuid) (now : timestamptz)
  (d : PromptRecordDraft) : result uuid * table :=
  match to_vector768 (d_embedding d) with
  | Raise e => (Raise e, records)
  | Ok e =>
      if negb (mode_check (d_mode d)) then (Raise check_violation, records)
      else if existsb (fun r => N.eqb (id r) new_id) records
      then (Raise unique_violation, records)
      else (Ok new_id, records ++ [new_row new_id now d e])
  end.

(** Modelled from the spec: [ValidationError] is the spec's name for the
    two errors of a malformed draft, bad dimensionality and invalid
    mode. *)
Definition ValidationError (e : sqlstate) : Prop :=
  e = data_exception \/ e = check_violation.

(** A score is unset or a number that lies in [0, 1]. *)
Definition score_in_range (s : option float) : Prop :=
  match s with
  | None => True
  | Some (finite q) => 0 <= q /\ q <= 1
  | Some _ => False
  end.

Definition scores_in_range (r : row) : Prop :=
  score_in_range (quality_score r) /\
  score_in_range (full_body_score r) /\
  score_in_range (background_score r) /\
  score_in_range (face_clarity_score r) /\
  score_in_range (match_score r).

End Store.

(** ** The model-learning aggregator *)

Module Aggregator.
Import dop_prompt_records.

(** Modelled from the spec: the code that maintains [dop_model_learnings]
    ([on_record_created], [on_record_approved]) is not part of the schema
    file, which only declares the table. The aggregate of one model type
    holds the two running counters, the sum of the quality scores of the
    approved records (the average is derived from it at read time) and the
    two histograms. *)
Definition histogram := list (string * Z).

Record ModelLearning : Type := mk_learning {
  total_generations : Z;
  approved_count : Z;
  sum_of_quality_scores : Q;
  best_aspect_ratios : histogram;
  common_keywords : histogram
}.

(** Modelled from the spec: an unknown model type reads as the zero-valued
    record. *)
Definition empty_learning : ModelLearning :=
  {| total_generations := 0;
     approved_count := 0;
     sum_of_quality_scores := 0;
     best_aspect_ratios := [];
     common_keywords := [] |}.

(** One aggregate per model type (unique key = model type). *)
Definition store := list (string * ModelLearning).

Fixpoint get (s : store) (model : string) : ModelLearning :=
  match s with
  | [] => empty_learning
  | (k, m) :: s' => if (k =? model)%string then m else get s' model
  end.

(** First touch creates the record, later ones update it in place. *)
Fixpoint upsert (model : string) (f : ModelLearning -> ModelLearning)
  (s : store) : store :=
  match s with
  | [] => [(model, f empty_learning)]
  | (k, m) :: s' =>
      if (k =? model)%string then (k, f m) :: s'
      else (k, m) :: upsert model f s'
  end.

(** Increment-on-observe for a histogram. *)
Fixpoint observe (key : string) (h : histogram) : histogram :=
  match h with
  | [] => [(key, 1%Z)]
  | (k, n) :: h' =>
      if (k =? key)%string then (k, (n + 1)%Z) :: h'
      else (k, n) :: observe key h'
  end.

Definition observe_all (keys : list string) (h : histogram)
  : histogram :=
  fold_left (fun acc k => observe k acc) keys h.

Definition option_list {A : Type} (x : option (list A)) : list A :=
  match x with Some l => l | None => [] end.

(** Modelled from the spec: [on_record_created] increments
    [total_generations] immediately, independent of approval. *)
Definition on_record_created (r : row) (s : store) : store :=
  upsert (model_type r)
    (fun m =>
       {| total_generations := (total_generations m + 1)%Z;
          approved_count := approved_count m;
          sum_of_quality_scores := sum_of_quality_scores m;
          best_aspect_ratios := best_aspect_ratios m;
          common_keywords := common_keywords m |})
    s.

(** Modelled from the spec: the quality score with which a record enters
    the aggregate of its model type. In the scenario of the spec a record
    with a score of 0.6 "contributes to total_generations but not to the
    average or to eligibility", and the average of the four others is
    their sum over 4: a record counts as approved when its score is a
    number of at least 0.7, the floor of eligibility. *)
Definition counted_score (r : row) : option Q :=
  match quality_score r with
  | Some (Sql.finite q) => if Qle_bool (7 # 10) q then Some q else None
  | _ => None
  end.

(** Modelled from the spec: [on_record_approved] applies the whole delta
    of one approval (counter, sum, both histograms) in one update of the
    record of the model type, or none of it. *)
Definition on_record_approved (r : row) (s : store) : store :=
  match counted_score r with
  | None => s
  | Some q =>
      upsert (model_type r)
        (fun m =>
           {| total_generations := total_generations m;
              approved_count := (approved_count m + 1)%Z;
              sum_of_quality_scores := sum_of_quality_scores m + q;
              best_aspect_ratios :=
                match aspect_ratio r with
                | Some a => observe a (best_aspect_ratios m)
                | None => best_aspect_ratios m
                end;
              common_keywords :=
                observe_all (option_list (keywords r))
                  (common_keywords m) |})
        s
  end.

(** Modelled from the spec: [avg_quality_score] is derived at read time,
    [sum_of_quality_scores / approved_count], 0 when nothing is
    approved. *)
Definition avg_quality_score (m : ModelLearning) : Q :=
  if (approved_count m =? 0)%Z then 0
  else sum_of_quality_scores m / inject_Z (approved_count m).

Inductive event : Type :=
| record_created (r : row)
| record_approved (r : row).

Definition apply_event (s : store) (e : event) : store :=
  match e with
  | record_created r => on_record_created r s
  | record_approved r => on_record_approved r s
  end.

Definition run (events : list event) (s : store) : store :=
  fold_left apply_event events s.

(** Modelled from the spec: the calling convention of the two entry
    points. [on_record_created] is called when a record is created and
    [on_record_approved] once per record, when it turns approved; so each
    approval is of a record created earlier under the same model type and
    not approved yet. [pending] lists the records created and not yet
    approved. *)
Definition same_record (a b : uuid * string) : bool :=
  N.eqb (fst a) (fst b) && (snd a =? snd b)%string.

Fixpoint remove_one (x : uuid * string) (l : list (uuid * string))
  : list (uuid * string) :=
  match l with
  | [] => []
  | y :: l' => if same_record x y then l' else y :: remove_one x l'
  end.

(** The number of pending records of a model type. *)
Definition pending_of (model : string) (pending : list (uuid * string))
  : Z :=
  Z.of_nat
    (List.length (filter (fun p => (snd p =? model)%string) pending)).

Fixpoint follows_protocol (pending : list (uuid * string))
  (events : list event) : bool :=
  match events with
  | [] => true
  | record_created r :: es =>
      follows_protocol ((id r, model_type r) :: pending) es
  | record_approved r :: es =>
      existsb (same_record (id r, model_type r)) pending &&
      follows_protocol (remove_one (id r, model_type r) pending) es
  end.

(** What one event adds to the two counters of a model type. *)
Definition created_delta (e : event) (model : string) : Z :=
  match e with
  | record_created r => if (model_type r =? model)%string then 1 else 0
  | record_approved _ => 0
  end.

Definition approved_delta (e : event) (model : string) : Z :=
  match e with
  | record_created _ => 0
  | record_approved r =>
      match counted_score r with
      | Some _ => if (model_type r =? model)%string then 1 else 0
      | None => 0
      end
  end.

(** Every record counted as approved or still pending has been counted
    as generated. *)
Definition balanced (s : store) (pending : list (uuid * string)) : Prop :=
  forall model,
    (approved_count (get s model) + pending_of model pending
     <= total_generations (get s model))%Z.

End Aggregator.

(** ** The image editor: [useImageEditor] *)

Module Editor.

Inductive CharacterView : Set := master | face | body | side | back.

Inductive ImageSource : Type :=
| scene (sceneId : string)
| character (characterId : string) (view : CharacterView)
| product (productId : string) (view : string)
| gallery (assetId : string)
| gommo (groupId spaceId : option string) (imageId : string)
| upload (filename : option string)
| url (originalUrl : string).

Inductive Provider : Set := provider_gemini | provider_gommo.

Record EditorImage : Type := mk_image {
  id : string;
  image : string;
  prompt : option string;
  source : ImageSource;
  createdAt : Z;
  model : option string;
  provider : option Provider
}.

Record ImageEditorState : Type := mk_state {
  isOpen : bool;
  currentImage : option EditorImage;
  history : list EditorImage;
  isLoading : bool;
  error : option string
}.

(** The argument of [useState]. *)
Definition initial_state : ImageEditorState :=
  {| isOpen := false;
     currentImage := None;
     history := [];
     isLoading := false;
     error := None |}.

(** [a.slice(-n)]: the last [n] elements, the whole array when it has
    fewer; [slice(-0)] is [slice(0)]. *)
Definition slice_last (n : nat) {A : Type} (a : list A) : list A :=
  match n with
  | O => a
  | _ => skipn (List.length a - n) a
  end.

Definition openEditor (img : EditorImage) (prev : ImageEditorState)
  : ImageEditorState :=
  {| isOpen := true;
     currentImage := Some img;
     history := history prev;
     isLoading := isLoading prev;
     error := None |}.

Definition closeEditor (prev : ImageEditorState) : ImageEditorState :=
  {| isOpen := false;
     currentImage := None;
     history := history prev;
     isLoading := isLoading prev;
     error := None |}.

Definition addToHistory (img : EditorImage) (prev : ImageEditorState)
  : ImageEditorState :=
  {| isOpen := isOpen prev;
     currentImage := currentImage prev;
     history := slice_last 50 (history prev ++ [img]);   (* Keep last 50 *)
     isLoading := isLoading prev;
     error := error prev |}.

Definition clearHistory (prev : ImageEditorState) : ImageEditorState :=
  {| isOpen := isOpen prev;
     currentImage := currentImage prev;
     history := [];
     isLoading := isLoading prev;
     error := error prev |}.

(** The state part of [onEditorSave]: [newId] is the value of
    [generateId()], [now] of [Date.now()]. The save callback is the
    caller's and receives the edited image and its source; it is not part
    of the editor state. *)
Definition onEditorSave (editedImage : string) (newId : string) (now : Z)
  (st : ImageEditorState) : ImageEditorState :=
  closeEditor
    match currentImage st with
    | Some cur =>
        addToHistory
          {| id := newId;
             image := editedImage;
             prompt := prompt cur;
             source := source cur;
             createdAt := now;
             model := model cur;
             provider := provider cur |}
          st
    | None => st
    end.

(** The loading and error updates of the asynchronous openers. *)
Definition setLoading (loading : bool) (clear_error : bool)
  (prev : ImageEditorState) : ImageEditorState :=
  {| isOpen := isOpen prev;
     currentImage := currentImage prev;
     history := history prev;
     isLoading := loading;
     error := if clear_error then None else error prev |}.

Definition failLoading (message : string) (prev : ImageEditorState)
  : ImageEditorState :=
  {| isOpen := isOpen prev;
     currentImage := currentImage prev;
     history := history prev;
     isLoading := false;
     error := Some message |}.

(** Every state update the hook performs. An [onEditorSave] called from
    a stale render, which still sees the image that was open, amounts to
    [AddToHistory] followed by [CloseEditor]. *)
Inductive action : Type :=
| OpenEditor (img : EditorImage)
| CloseEditor
| AddToHistory (img : EditorImage)
| ClearHistory
| EditorSave (editedImage newId : string) (now : Z)
| SetLoading (loading clear_error : bool)
| FailLoading (message : string).

Definition step (st : ImageEditorState) (a : action) : ImageEditorState :=
  match a with
  | OpenEditor img => openEditor img st
  | CloseEditor => closeEditor st
  | AddToHistory img => addToHistory img st
  | ClearHistory => clearHistory st
  | EditorSave e i n => onEditorSave e i n st
  | SetLoading l c => setLoading l c st
  | FailLoading m => failLoading m st
  end.

Definition run (actions : list action) (st : ImageEditorState)
  : ImageEditorState :=
  fold_left step actions st.

End Editor.

(** ** The vocabulary of the properties *)

Module Properties.
Import Sql dop_prompt_records.

Section WithOperator.
Variable float8 : rounding.
Variable cosine_distance : vector -> vector -> float.

(** A record is eligible for a search when it is approved, its quality
    score is at least 0.7, it matches the filters that are supplied, it has
    an embedding of as many components as the query, and its similarity
    to the query is at least the threshold; both comparisons in the order
    of floats, where NaN is above every number. *)
Definition eligible (query_embedding : vector)
  (match_model_type match_mode : option string)
  (similarity_threshold : float) (r : row) : Prop :=
  was_approved r = Some true /\
  (exists s, quality_score r = Some s /\
             float_ge s (finite (7 # 10)) = true) /\
  (forall t, match_model_type = Some t -> model_type r = t) /\
  (forall m, match_mode = Some m -> mode r = m) /\
  (exists e, embedding r = Some e /\
             List.length e = List.length query_embedding /\
             float_ge (one_minus float8 (cosine_distance e query_embedding))
               similarity_threshold = true).

(** The query and a stored embedding that do not have the same number
    of components, or an index scan with a query that does not have the
    768 components of the column. *)
Definition dimension_mismatch (plan : Search.scan) (records : table)
  (query_embedding : vector) : Prop :=
  (exists probed, plan = Search.ivfflat probed /\
                  List.length query_embedding <> embedding_dim) \/
  (exists r e, In r records /\ embedding r = Some e /\
               List.length e <> List.length query_embedding).

(** The query and every stored embedding have the 768 components of the
    column. *)
Definition dimensions_agree (records : table) (query_embedding : vector)
  : Prop :=
  List.length query_embedding = embedding_dim /\
  forall r e, In r records -> embedding r = Some e ->
              List.length e = embedding_dim.



End WithOperator.


(** "Ties between equal-frequency keywords are broken lexicographically by
    keyword": of two rows with the same frequency, the one whose keyword
    is smaller in the lexicographic order comes first. *)
Definition ties_by_keyword (rows : list Keywords.keyword_row) : Prop :=
  forall i j a b,
    nth_error rows i = Some a -> nth_error rows j = Some b ->
    Keywords.frequency a = Keywords.frequency b ->
    (Keywords.keyword a <? Keywords.keyword b)%string = true ->
    (i < j)%nat.

(** Two floats in descending order, a NaN after everything else. *)
Definition descending (x y : float) : Prop :=
  match x, y with
  | _, NaN => True
  | NaN, _ => False
  | _, _ => float_le y x = true
  end.

(** Two returned rows in descending order of similarity, a similarity
    that is NaN last. *)
Definition similarity_ge (a b : Search.similar_prompt) : Prop :=
  match Search.similarity a, Search.similarity b with
  | Some x, Some y => descending x y
  | _, _ => False
  end.

(** Two keyword rows in descending order of frequency, a NULL frequency
    first. *)
Definition frequency_ge (a b : Keywords.keyword_row) : Prop :=
  match Keywords.frequency a, Keywords.frequency b with
  | None, _ => True
  | Some _, None => False
  | Some x, Some y => (y <= x)%Z
  end.

(** A stored value of a row that the inner query of
    [get_model_best_keywords] cannot read, and the error it gives: a
    [common_keywords] that is not an object, or a member whose text is
    not accepted by the cast to INT. *)
Definition unreadable (int4in : string -> result Z)
  (r : dop_model_learnings.row) (e : sqlstate) : Prop :=
  (dop_model_learnings.common_keywords r = Some jsonb_not_object /\
   e = invalid_parameter_value) \/
  (exists members k text,
     dop_model_learnings.common_keywords r = Some (jsonb_object members) /\
     In (k, Some text) members /\ int4in text = Raise e).

End Properties.

(** ** Concrete data *)

Module Examples.
Import Sql.

(** Unit vectors of dimension 768 along the first and the second axis,
    the zero vector, and a vector of 512 components. *)
Definition axis1 : vector := 1 :: repeat 0 767.
Definition axis2 : vector := 0 :: 1 :: repeat 0 766.
Definition zero : vector := repeat 0 768.
Definition short : vector := 1 :: repeat 0 511.

Fixpoint dotQ (a b : list Q) : Q :=
  match a, b with
  | x :: a', y :: b' => x * y + dotQ a' b'
  | _, _ => 0
  end.

(** The cosine distance on the vectors the examples use, which have norm
    1 or 0: [1 - a.b], and NaN when one of the two is a zero vector. *)
Definition unit_cosine_distance (a b : vector) : float :=
  if Qeq_bool (dotQ a a * dotQ b b) 0 then NaN
  else finite (Qred (1 - dotQ a b)).

(** The examples subtract 0 and 1 from 1: the results are floats, which
    rounding leaves as they are. *)
Definition unrounded : rounding :=
  {| round := fun q => q; round_monotone := fun x y H => H |}.

(** An executor that leaves rows with equal keys in scan order, and one
    that puts the rows with the smaller id first. *)
Definition scan_order {A : Type} (r : A) : nat := O.
Definition by_id (r : dop_prompt_records.row) : nat :=
  N.to_nat (dop_prompt_records.id r).

Definition prompt (i : uuid) (created : timestamptz) (e : option vector)
  (model mode : string) (quality : option float) (approved : option bool)
  : dop_prompt_records.row :=
  {| dop_prompt_records.id := i;
     dop_prompt_records.user_id := None;
     dop_prompt_records.original_prompt := "a knight at dawn";
     dop_prompt_records.normalized_prompt := "knight dawn";
     dop_prompt_records.embedding := e;
     dop_prompt_records.model_id := "imagen-3";
     dop_prompt_records.model_type := model;
     dop_prompt_records.mode := mode;
     dop_prompt_records.aspect_ratio := Some "16:9"%string;
     dop_prompt_records.quality_score := quality;
     dop_prompt_records.full_body_score := None;
     dop_prompt_records.background_score := None;
     dop_prompt_records.face_clarity_score := None;
     dop_prompt_records.match_score := None;
     dop_prompt_records.was_approved := approved;
     dop_prompt_records.was_retried := Some false;
     dop_prompt_records.retry_count := Some 0%Z;
     dop_prompt_records.created_at := Some created;
     dop_prompt_records.keywords := Some ["knight"; "dawn"]%string;
     dop_prompt_records.tags := None |}.

(** Two approved records with the same embedding; the one created first
    (at time 100) lies behind the one created later (at time 200) in the
    heap, as happens when its evaluation was written last. *)
Definition early : dop_prompt_records.row :=
  prompt 1%N 100%Z (Some axis1) "imagen" "scene" (Some (finite (9 # 10)))
    (Some true).
Definition late : dop_prompt_records.row :=
  prompt 2%N 200%Z (Some axis1) "imagen" "scene" (Some (finite (8 # 10)))
    (Some true).
Definition tied_records : dop_prompt_records.table := [late; early].


(** A table with one record of each kind: eligible, not approved, below
    the quality floor, of another mode, without embedding, and far from
    the first axis. *)
Definition good_record : dop_prompt_records.row :=
  prompt 1%N 10%Z (Some axis1) "imagen" "scene" (Some (finite (9 # 10)))
    (Some true).

Definition mixed_records : dop_prompt_records.table :=
  [ good_record;
    prompt 2%N 20%Z (Some axis1) "imagen" "scene" (Some (finite (9 # 10)))
      (Some false);
    prompt 3%N 30%Z (Some axis1) "imagen" "scene" (Some (finite (6 # 10)))
      (Some true);
    prompt 4%N 40%Z (Some axis1) "imagen" "character" (Some (finite 1))
      (Some true);
    prompt 5%N 50%Z None "imagen" "scene" (Some (finite 1)) (Some true);
    prompt 6%N 60%Z (Some axis2) "imagen" "scene" (Some (finite 1))
      (Some true) ].

(** The five records of the scenario of the spec: approved records of
    "imagen" with the scores 0.9, 0.8, 0.75, 0.6 and 0.95. *)
Definition scored (i : uuid) (quality : Q) : dop_prompt_records.row :=
  prompt i 0%Z (Some axis1) "imagen" "scene" (Some (finite quality))
    (Some true).

Definition five_records : dop_prompt_records.table :=
  [ scored 1%N (9 # 10); scored 2%N (8 # 10); scored 3%N (75 # 100);
    scored 4%N (6 # 10); scored 5%N (95 # 100) ].

Definition draft (e : option (list Q)) (mode : string)
  (quality : option float) : Store.PromptRecordDraft :=
  {| Store.d_user_id := None;
     Store.d_original_prompt := "a knight at dawn";
     Store.d_normalized_prompt := "knight dawn";
     Store.d_embedding := e;
     Store.d_model_id := "imagen-3";
     Store.d_model_type := "imagen";
     Store.d_mode := mode;
     Store.d_aspect_ratio := None;
     Store.d_quality_score := quality;
     Store.d_full_body_score := None;
     Store.d_background_score := None;
     Store.d_face_clarity_score := None;
     Store.d_match_score := None;
     Store.d_was_approved := None;
     Store.d_was_retried := None;
     Store.d_retry_count := None;
     Store.d_created_at := None;
     Store.d_keywords := None;
     Store.d_tags := None |}.

(** A cast to INT for the examples: an optional sign and decimal
    digits, within the range of INT. The blanks that PostgreSQL's cast
    skips around the number do not occur in the examples. *)
Fixpoint digits (s : string) (acc : Z) : option Z :=
  match s with
  | EmptyString => Some acc
  | String c s' =>
      let n := Ascii.nat_of_ascii c in
      if (48 <=? n)%nat && (n <=? 57)%nat
      then digits s' (10 * acc + Z.of_nat (n - 48))%Z
      else None
  end.

Definition number (s : string) : option Z :=
  match s with
  | EmptyString => None
  | _ => digits s 0%Z
  end.

Definition signed_number (s : string) : option Z :=
  match s with
  | String c body =>
      if (Ascii.nat_of_ascii c =? 45)%nat
      then option_map Z.opp (number body)
      else if (Ascii.nat_of_ascii c =? 43)%nat then number body
      else number s
  | EmptyString => None
  end.

Definition int4in (s : string) : result Z :=
  match signed_number s with
  | None => Raise invalid_text_representation
  | Some n =>
      if ((-2147483648 <=? n) && (n <=? 2147483647))%Z then Ok n
      else Raise numeric_value_out_of_range
  end.


Definition learning (i : uuid) (model : string)
  (keywords : option jsonb) : dop_model_learnings.row :=
  {| dop_model_learnings.id := i;
     dop_model_learnings.model_type := model;
     dop_model_learnings.total_generations := Some 2%Z;
     dop_model_learnings.approved_count := Some 2%Z;
     dop_model_learnings.avg_quality_score := Some (finite (9 # 10));
     dop_model_learnings.approval_rate := Some (finite 1);
     dop_model_learnings.best_aspect_ratios :=
       Some (jsonb_object [("16:9"%string, Some "2"%string)]);
     dop_model_learnings.common_keywords := keywords;
     dop_model_learnings.successful_patterns := None;
     dop_model_learnings.updated_at := None |}.

(** The learnings of three models, the keywords in jsonb storage order
    (the shorter key first): for "imagen" two keywords with the same
    count, for "gemini" the object of the column comment and one more
    keyword, for "midjourney" a count beyond the range of INT. *)
Definition learnings : dop_model_learnings.table :=
  [ learning 1%N "imagen"
      (Some (jsonb_object [("b"%string, Some "1"%string);
                           ("aa"%string, Some "1"%string)]));
    learning 2%N "gemini"
      (Some (jsonb_object [("8k"%string, Some "80"%string);
                           ("bokeh"%string, Some "90"%string);
                           ("full body"%string, Some "100"%string)]));
    learning 3%N "midjourney"
      (Some (jsonb_object [("8k"%string, Some "3000000000"%string)])) ].

Definition db : database :=
  {| prompt_records := mixed_records; model_learnings := learnings |}.

(** The [n]-th picture uploaded to the editor, and the pictures from the
    [first]-th on. *)
Definition picture (n : nat) : Editor.EditorImage :=
  {| Editor.id := "img";
     Editor.image := "data:image/png;base64,AAAA";
     Editor.prompt := None;
     Editor.source := Editor.upload None;
     Editor.createdAt := Z.of_nat n;
     Editor.model := None;
     Editor.provider := None |}.

Definition pictures (first count : nat) : list Editor.EditorImage :=
  map picture (List.seq first count).

End Examples.

From Stdlib Require DecimalString.

(** ** What the declaration of [dop_prompt_records] promises *)

Module Constraints.
Import dop_prompt_records.

(** The column type [vector(768)]: an embedding that is stored has 768
    components. *)
Definition embedding_ok (r : row) : Prop :=
  match embedding r with
  | Some v => List.length v = embedding_dim
  | None => True
  end.

(** PRIMARY KEY (id), CHECK (mode IN ...) and the type of [embedding]. *)
Definition satisfies_constraints (records : table) : Prop :=
  NoDup (map id records) /\
  Forall (fun r => mode_check (mode r) = true /\ embedding_ok r) records.

End Constraints.

(** ** Table [profiles], the signup trigger and [is_admin] *)

Module profiles.

(** The columns of SUPABASE_SCHEMA.sql, then those the admin setup script
    adds ([display_name], [role], [created_at]). *)
Record row : Type := mk_row {
  id : uuid;                                   (* PRIMARY KEY *)
  email : option string;
  full_name : option string;
  subscription_tier : option string;           (* DEFAULT 'free', CHECK *)
  subscription_expires_at : option timestamptz;
  updated_at : timestamptz;                    (* NOT NULL *)
  usage_stats : option jsonb;
  system_key_id : option uuid;
  display_name : option string;
  role : option string;                        (* DEFAULT 'user' *)
  created_at : option timestamptz
}.

Definition table := list row.

(** CHECK (subscription_tier IN ('free', 'pro')): a CHECK passes when its
    condition is true or unknown. *)
Definition subscription_tier_check (t : option string) : bool :=
  match t with
  | None => true
  | Some s => (s =? "free")%string || (s =? "pro")%string
  end.

(** The DEFAULT of [usage_stats], in jsonb storage order. *)
Definition default_usage_stats : jsonb :=
  jsonb_object
    (map (fun k => (k, Some "0"))
       [ "1K"; "2K"; "4K"; "total"; "scenes"; "concepts"; "products";
         "textCalls"; "characters"; "textTokens"; "promptTokens";
         "candidateTokens" ])%string.

End profiles.

Module Signup.
Import Sql profiles.

(** The columns of [auth.users] the trigger reads. The metadata object
    maps a key to the text [->>] returns for it: [None] for a JSON null. *)
Record auth_user : Type := mk_auth_user {
  au_id : uuid;
  au_email : option string;
  raw_user_meta_data : option (list (string * option string))
}.

(** [meta ->> key]: NULL when the object is NULL, the key is absent or
    its value is a JSON null. *)
Definition meta_text (meta : option (list (string * option string)))
  (key : string) : option string :=
  match meta with
  | None => None
  | Some o =>
      match find (fun kv => (fst kv =? key)%string) o with
      | Some (_, v) => v
      | None => None
      end
  end.

(** COALESCE: the first argument that is not NULL. *)
Fixpoint coalesce {A : Type} (args : list (option A)) : option A :=
  match args with
  | [] => None
  | Some a :: _ => Some a
  | None :: rest => coalesce rest
  end.

(** The row [handle_new_user] inserts: four columns are given, the others
    take their DEFAULT. *)
Definition new_profile (new : auth_user) (now : timestamptz) : row :=
  {| id := au_id new;
     email := coalesce [au_email new;
                        meta_text (raw_user_meta_data new) "email";
                        Some EmptyString];
     full_name := coalesce [meta_text (raw_user_meta_data new) "full_name";
                            Some EmptyString];
     subscription_tier := Some "free"%string;
     subscription_expires_at := None;
     updated_at := now;
     usage_stats := Some default_usage_stats;
     system_key_id := None;
     display_name := None;
     role := Some "user"%string;
     created_at := Some now |}.

(** [handle_new_user()], run AFTER INSERT ON auth.users FOR EACH ROW: it
    inserts the profile and returns NEW; the CHECK and the primary key of
    [profiles] are enforced, and an error leaves the table as it was. The
    function is SECURITY DEFINER, so no row-level policy applies. *)
Definition handle_new_user (profiles : table) (new : auth_user)
  (now : timestamptz) : result auth_user * table :=
  let p := new_profile new now in
  if negb (subscription_tier_check (subscription_tier p))
  then (Raise check_violation, profiles)
  else if existsb (fun q => N.eqb (id q) (id p)) profiles
  then (Raise unique_violation, profiles)
  else (Ok new, profiles ++ [p]).

End Signup.

(** ** Row-level security *)

Module Policies.
Import Sql.

Definition uuid_eq3 : option uuid -> option uuid -> tvl := cmp3 N.eqb.

(** [is_admin()]: EXISTS (SELECT 1 FROM profiles WHERE id = auth.uid()
    AND role = 'admin'). SECURITY DEFINER: it reads every profile.
    [auth_uid] is the value of [auth.uid()], NULL without a session. *)
Definition is_admin (all_profiles : profiles.table)
  (auth_uid : option uuid) : bool :=
  existsb
    (fun p => holds (and3 (uuid_eq3 (Some (profiles.id p)) auth_uid)
                          (text_eq3 (profiles.role p) (Some "admin"%string))))
    all_profiles.

(** "Users can manage own prompt records" ON dop_prompt_records
    FOR ALL USING (auth.uid() = user_id) *)
Definition own_prompt_record (auth_uid : option uuid)
  (r : dop_prompt_records.row) : tvl :=
  uuid_eq3 auth_uid (dop_prompt_records.user_id r).

(** The rows of [dop_prompt_records] a statement of the caller reads when
    this policy is the one in force: those for which USING is true. *)
Definition visible_prompt_records (auth_uid : option uuid)
  (records : dop_prompt_records.table) : dop_prompt_records.table :=
  filter (fun r => holds (own_prompt_record auth_uid r)) records.

(** [search_similar_prompts] called with the rights of the caller: the
    function is not SECURITY DEFINER, so its query reads the table through
    the policy. *)
Definition search_similar_prompts_as
  (float8 : rounding) (cosine_distance : vector -> vector -> float)
  (plan : Search.scan) (tiebreak : dop_prompt_records.row -> nat)
  (auth_uid : option uuid) (records : dop_prompt_records.table)
  (query_embedding : vector) (match_model_type match_mode : option string)
  (match_count : Z) (similarity_threshold : float)
  : result (list Search.similar_prompt) :=
  Search.search_similar_prompts float8 cosine_distance plan tiebreak
    (visible_prompt_records auth_uid records)
    query_embedding match_model_type match_mode match_count
    similarity_threshold.

(** Table [gommo_credentials]. *)
Record gommo_credentials : Type := mk_gommo_credentials {
  user_id : uuid;                              (* PRIMARY KEY *)
  domain : string;
  access_token : string;
  credits_ai : option Z;
  created_at : timestamptz
}.

(** "gommo_select" ON gommo_credentials FOR SELECT
    USING (auth.uid() = user_id OR is_admin()) *)
Definition gommo_select (all_profiles : profiles.table)
  (auth_uid : option uuid) (c : gommo_credentials) : tvl :=
  or3 (uuid_eq3 auth_uid (Some (user_id c)))
      (Some (is_admin all_profiles auth_uid)).

Definition visible_gommo_credentials (all_profiles : profiles.table)
  (auth_uid : option uuid) (credentials : list gommo_credentials)
  : list gommo_credentials :=
  filter (fun c => holds (gommo_select all_profiles auth_uid c)) credentials.

End Policies.

(** ** The image editor: the openers *)

Module EditorFlows.
Import Editor.

(** How a promise the hook awaits ([urlToBase64], [fileToBase64]) ends:
    with a value, or with an error and its [message]. *)
Inductive settled (A : Type) : Type :=
| Resolved (a : A)
| Rejected (message : option string).
Arguments Resolved {A} a.
Arguments Rejected {A} message.

(** [error.message || fallback]: an empty or missing message is falsy. *)
Definition message_or (message : option string) (fallback : string)
  : string :=
  match message with
  | Some EmptyString | None => fallback
  | Some m => m
  end.

(** [newId] is the value of [generateId()], [now] of [Date.now()]. *)
Definition openEditorWithBase64 (base64 : string) (src : ImageSource)
  (prompt_text : option string) (newId : string) (now : Z)
  (st : ImageEditorState) : ImageEditorState :=
  openEditor
    {| id := newId;
       image := base64;
       prompt := prompt_text;
       source := src;
       createdAt := now;
       model := None;
       provider := None |}
    st.

Definition openSceneForEdit (sceneId image_data : string)
  (prompt_text : option string) (newId : string) (now : Z)
  (st : ImageEditorState) : ImageEditorState :=
  openEditorWithBase64 image_data (scene sceneId) prompt_text newId now st.

Definition openCharacterForEdit (characterId : string)
  (view : CharacterView) (image_data : string) (newId : string) (now : Z)
  (st : ImageEditorState) : ImageEditorState :=
  openEditorWithBase64 image_data (character characterId view) None
    newId now st.

Definition openGalleryAssetForEdit (assetId image_data : string)
  (prompt_text : option string) (newId : string) (now : Z)
  (st : ImageEditorState) : ImageEditorState :=
  openEditorWithBase64 image_data (gallery assetId) prompt_text newId now
    st.

(** [openEditorWithUrl]: loading on and error cleared; then the editor
    opens on the fetched image, or the error is recorded; finally loading
    off. [fetched] is how [urlToBase64(url)] ended. *)
Definition openEditorWithUrl (fetched : settled string) (address : string)
  (prompt_text : option string) (newId : string) (now : Z)
  (st : ImageEditorState) : ImageEditorState :=
  let loading := setLoading true true st in
  let tried :=
    match fetched with
    | Resolved base64 =>
        openEditor
          {| id := newId;
             image := base64;
             prompt := prompt_text;
             source := url address;
             createdAt := now;
             model := None;
             provider := None |}
          loading
    | Rejected message =>
        failLoading (message_or message "Failed to load image from URL")
          loading
    end in
  setLoading false false tried.

(** [openGommoImageForEdit]: loading on; then the editor opens on the
    fetched image, or the error is recorded with loading off. *)
Definition openGommoImageForEdit (fetched : settled string)
  (imageId : string) (groupId : option string) (newId : string) (now : Z)
  (st : ImageEditorState) : ImageEditorState :=
  let loading := setLoading true false st in
  match fetched with
  | Resolved base64 =>
      openEditor
        {| id := newId;
           image := base64;
           prompt := None;
           source := gommo groupId None imageId;
           createdAt := now;
           model := None;
           provider := Some provider_gommo |}
        loading
  | Rejected _ => failLoading "Failed to load Gommo image" loading
  end.

(** [openUploadedImageForEdit]: [read] is how [fileToBase64(file)] ended,
    [name] is [file.name]. *)
Definition openUploadedImageForEdit (read : settled string) (name : string)
  (newId : string) (now : Z) (st : ImageEditorState) : ImageEditorState :=
  let loading := setLoading true false st in
  match read with
  | Resolved base64 =>
      openEditor
        {| id := newId;
           image := base64;
           prompt := None;
           source := upload (Some name);
           createdAt := now;
           model := None;
           provider := None |}
        loading
  | Rejected _ => failLoading "Failed to load uploaded file" loading
  end.

End EditorFlows.

(** ** The director chat: [useDirectorChat] *)

Module DirectorChat.
Import EditorFlows.
Local Open Scope string_scope.

(** [x || fallback] on a text that may be missing: the empty text is
    falsy. *)
Definition text_or (x : option string) (fallback : string) : string :=
  match x with
  | Some EmptyString | None => fallback
  | Some s => s
  end.

(** A text that may be missing, inside a template literal. *)
Definition text_or_undefined (x : option string) : string :=
  match x with
  | Some s => s
  | None => "undefined"
  end.

(** A count inside a template literal. *)
Definition decimal (n : nat) : string :=
  DecimalString.NilZero.string_of_uint (Nat.to_uint n).

(** A scene reference as the reply gives it: a text, a number, or
    nothing. *)
Inductive scene_ref : Type :=
| ref_text (s : string)
| ref_number (n : Z)
| ref_missing.

(** [String(ref)] *)
Definition String_of (r : scene_ref) : string :=
  match r with
  | ref_text s => s
  | ref_number n => DecimalString.NilZero.string_of_int (Z.to_int n)
  | ref_missing => "undefined"
  end.

(** [s === ref] for a text [s]: false unless [ref] is a text. *)
Definition strict_eq (s : string) (r : scene_ref) : bool :=
  match r with
  | ref_text t => s =? t
  | _ => false
  end.

(** The entities of the OUTPUT FORMAT; the bounds of a range are whole
    numbers. *)
Record Entities : Type := mk_entities {
  range : option (list Z);
  sceneIds : option (list string);
  styleInstruction : option string;
  directive : option string;
  sourceSceneId : scene_ref;
  targetSceneId : scene_ref
}.

(** What [recognizeIntent] returns when it is not null: the three
    fields [handleCommand] takes from it, each of which may be missing.
    An intent that is not a text is [None]; the entities, when there are
    some, are taken to have the shape of the OUTPUT FORMAT. *)
Record IntentResult : Type := mk_intent_result {
  intent : option string;
  entities : option Entities;
  response : option string
}.

(** The cases of the [switch] on the intent; [other_intent] is its
    [default]. *)
Inductive Intent : Set :=
| PAUSE_BATCH
| REGENERATE_RANGE
| UPDATE_STYLE
| SYNERGY_DIRECTIVE
| MATERIAL_INHERITANCE
| SYNC_AND_REGENERATE
| other_intent.

Definition intent_case (i : option string) : Intent :=
  match i with
  | None => other_intent
  | Some s =>
      if s =? "PAUSE_BATCH" then PAUSE_BATCH
      else if s =? "REGENERATE_RANGE" then REGENERATE_RANGE
      else if s =? "UPDATE_STYLE" then UPDATE_STYLE
      else if s =? "SYNERGY_DIRECTIVE" then SYNERGY_DIRECTIVE
      else if s =? "MATERIAL_INHERITANCE" then MATERIAL_INHERITANCE
      else if s =? "SYNC_AND_REGENERATE" then SYNC_AND_REGENERATE
      else other_intent
  end.

Inductive Agent : Set := director | dop.
Inductive AgentStatus : Set := thinking | success | error | speaking.

Section WithTypes.

(** The fields of [Scene] and [ProjectState] that the hook does not
    touch; the two types are declared in [../types]. *)
Variable SceneRest : Type.
Variable ProjectRest : Type.

Record Scene : Type := mk_scene {
  id : string;
  sceneNumber : string;
  contextDescription : string;
  generatedImage : option string;
  scene_rest : SceneRest
}.

Record ProjectState : Type := mk_project {
  scenes : list Scene;
  project_rest : ProjectRest
}.

(** [scene.generatedImage] as a condition: null and the empty text are
    falsy. *)
Definition has_image (s : Scene) : bool :=
  match generatedImage s with
  | Some (String _ _) => true
  | _ => false
  end.

(** What the hook does to the world around it, in order. [Throw] ends a
    trace: a TypeError is thrown outside every [try], and the promise
    that [handleCommand] returned is rejected. *)
Inductive effect : Type :=
| SetAgentState (agent : Agent) (status : AgentStatus)
    (message : option string) (stage : option string)
| AddProductionLog (sender : Agent) (message : string) (type : string)
| StopBatchGeneration
| UpdateStateAndRecord (updater : ProjectState -> ProjectState)
| HandleGenerateAllImages (specificSceneIds : list string)
| Throw.

(** The built-ins [String.prototype.trim], [parseInt] ([None] is NaN)
    and [JSON.parse] ([None]: it throws). For the reply with the intent
    [JSON.parse] gives null ([Some None]) or a value with its fields; for
    the rewritten prompts it gives an array of texts or something else. *)
Variable trim : string -> string.
Variable parseInt : string -> option Z.
Variable JSON_parse_intent : string -> option (option IntentResult).
Variable JSON_parse_prompts : string -> option (option (list string)).

(** [callGeminiText]: it throws before any request when the trimmed key
    is empty; otherwise it ends as the request does. [reply] is how
    [generateContent] ended, with the text of the response. *)
Definition callGeminiText (apiKey : string) (reply : settled string)
  : settled string :=
  match trim apiKey with
  | EmptyString => Rejected (Some "Missing API Key")
  | _ => reply
  end.

(** [userApiKey || ''] *)
Definition key_or_empty (userApiKey : option string) : string :=
  match userApiKey with
  | Some k => k
  | None => EmptyString
  end.

(** The object of the [catch] of [recognizeIntent]: it has no
    entities. *)
Definition fallback_intent : IntentResult :=
  {| intent := Some "PROD_Q_AND_A";
     entities := None;
     response := Some "Tôi nghe rõ, nhưng có chút trục trặc khi phân tích lệnh. Bạn có thể nói rõ hơn không?" |}.

(** [recognizeIntent]: the parsed reply of the model ([None] when it is
    null), or the fallback when the call or the parsing throws. *)
Definition recognizeIntent (userApiKey : option string)
  (reply : settled string) : option IntentResult :=
  match callGeminiText (key_or_empty userApiKey) reply with
  | Resolved text =>
      match JSON_parse_intent text with
      | Some result => result
      | None => Some fallback_intent
      end
  | Rejected _ => Some fallback_intent
  end.

(** REGENERATE_RANGE: [startNum] and [endNum]. A second bound that is
    missing or 0 is falsy and gives way to the first. *)
Definition startNum (e : Entities) : option Z :=
  match range e with
  | Some l => nth_error l 0
  | None => None
  end.

Definition endNum (e : Entities) : option Z :=
  match range e with
  | Some l =>
      match nth_error l 1 with
      | Some 0%Z | None => startNum e
      | Some b => Some b
      end
  | None => None
  end.

(** [num >= startNum && num <= endNum]: false as soon as one of the
    three is NaN or undefined. *)
Definition in_range (e : Entities) (s : Scene) : bool :=
  match parseInt (sceneNumber s), startNum e, endNum e with
  | Some num, Some a, Some b => (a <=? num)%Z && (num <=? b)%Z
  | _, _, _ => false
  end.

Definition targetScenes_of (state : ProjectState) (e : Entities)
  : list Scene :=
  filter (in_range e) (scenes state).

(** [a.findIndex(p)]: [None] is -1. *)
Fixpoint findIndex {A : Type} (p : A -> bool) (a : list A) : option nat :=
  match a with
  | [] => None
  | x :: a' => if p x then Some O else option_map S (findIndex p a')
  end.

(** UPDATE_STYLE: the updater handed to [updateStateAndRecord]. The guard
    before it makes [newPrompts] as long as [scenesToUpdate], so
    [newPrompts[index]] is defined. *)
Definition rewrite_styles (scenesToUpdate : list Scene)
  (newPrompts : list string) (s : ProjectState) : ProjectState :=
  {| scenes :=
       map (fun scene =>
              if negb (has_image scene) then
                match findIndex (fun su => id su =? id scene) scenesToUpdate
                with
                | Some index =>
                    {| id := id scene;
                       sceneNumber := sceneNumber scene;
                       contextDescription :=
                         nth index newPrompts EmptyString;
                       generatedImage := generatedImage scene;
                       scene_rest := scene_rest scene |}
                | None => scene
                end
              else scene)
           (scenes s);
     project_rest := project_rest s |}.

(** MATERIAL_INHERITANCE and SYNC_AND_REGENERATE: the updater. *)
Definition replace_prompt (targetId newPrompt : string) (s : ProjectState)
  : ProjectState :=
  {| scenes :=
       map (fun scene =>
              if id scene =? targetId then
                {| id := id scene;
                   sceneNumber := sceneNumber scene;
                   contextDescription := newPrompt;
                   generatedImage := None;
                   scene_rest := scene_rest scene |}
              else scene)
           (scenes s);
     project_rest := project_rest s |}.

(** [state.scenes.find(s => s.sceneNumber === String(ref) || s.id === ref)] *)
Definition find_scene (state : ProjectState) (r : scene_ref)
  : option Scene :=
  find (fun s => (sceneNumber s =? String_of r) || strict_eq (id s) r)
    (scenes state).

(** [handleCommand]: the effects of one command, in order. [state] is the
    project state the hook was rendered with; [intent_reply] and
    [second_reply] are how the request of [recognizeIntent] and the
    request of the chosen branch ended, [generated] how the awaited
    [handleGenerateAllImages] ended. The texts sent to the model are not
    part of the embedding. Reading a field of [entities] when the result
    has none throws a TypeError, and so does taking the fields of a
    result that is null. *)
Definition handleCommand (state : ProjectState)
  (userApiKey : option string) (intent_reply second_reply : settled string)
  (generated : settled unit) : list effect :=
  let key := key_or_empty userApiKey in
  SetAgentState director thinking (Some "Đang phân tích yêu cầu...") (Some "NLU Processing") ::
  match recognizeIntent userApiKey intent_reply with
  | None => [ Throw ]
  | Some result =>
  match intent_case (intent result) with
  | PAUSE_BATCH =>
      [ AddProductionLog director
          (text_or (response result) "Đang dừng tiến trình tạo ảnh theo yêu cầu.") "info";
        StopBatchGeneration;
        SetAgentState director success (Some "Tiến trình đã được tạm dừng.") None ]
  | REGENERATE_RANGE =>
      AddProductionLog director
        (text_or (response result) "Đang chuẩn bị tạo lại các phân cảnh được yêu cầu.") "info" ::
      match entities result with
      | None => [ Throw ]
      | Some ents =>
          let targetScenes := targetScenes_of state ents in
          match targetScenes with
          | _ :: _ =>
              [ SetAgentState director success
                  (Some ("Đã xác định được " ++ decimal (List.length targetScenes) ++ " phân cảnh. Bắt đầu tạo lại...")) None;
                HandleGenerateAllImages (map id targetScenes) ]
          | [] =>
              [ SetAgentState director error (Some "Tôi không tìm thấy phân cảnh nào trong khoảng bạn yêu cầu.") None ]
          end
      end
  | UPDATE_STYLE =>
      let scenesToUpdate :=
        filter (fun s => negb (has_image s)) (scenes state) in
      AddProductionLog director
        (text_or (response result) "Đang nghiên cứu cách áp dụng style mới vào mạch truyện...") "info" ::
      SetAgentState director thinking (Some "Đang thiết kế lại các phân cảnh tiếp theo...")
        (Some "Creative Rewriting") ::
      match scenesToUpdate with
      | [] => []
      | _ :: _ =>
          match entities result with
          | None =>
              [ SetAgentState director error (Some "Tôi gặp chút khó khăn khi thiết kế lại các cảnh. Đã áp dụng chỉ dẫn cơ bản.") None ]
          | Some _ =>
              match callGeminiText key second_reply with
              | Rejected _ =>
                  [ SetAgentState director error (Some "Tôi gặp chút khó khăn khi thiết kế lại các cảnh. Đã áp dụng chỉ dẫn cơ bản.")
                      None ]
              | Resolved rawUpdates =>
                  match JSON_parse_prompts rawUpdates with
                  | None =>
                      [ SetAgentState director error
                          (Some "Tôi gặp chút khó khăn khi thiết kế lại các cảnh. Đã áp dụng chỉ dẫn cơ bản.") None ]
                  | Some None => []
                  | Some (Some newPrompts) =>
                      if Nat.eqb (List.length newPrompts)
                           (List.length scenesToUpdate)
                      then
                        [ UpdateStateAndRecord
                            (rewrite_styles scenesToUpdate newPrompts);
                          SetAgentState director success
                            (Some "Đã cập nhật chỉ dẫn thẩm mỹ và ánh sáng cho các cảnh tới.") None ]
                      else []
                  end
              end
          end
      end
  | SYNERGY_DIRECTIVE =>
      AddProductionLog director
        (text_or (response result) "Đã gửi chỉ thị cho DOP.") "directive" ::
      match entities result with
      | None => [ Throw ]
      | Some ents =>
          SetAgentState dop thinking (Some ("Đang điều chỉnh theo yêu cầu: " ++ text_or_undefined (directive ents)))
            (Some "DOP Optimization") ::
          match callGeminiText key second_reply with
          | Resolved dopResponse =>
              [ AddProductionLog dop dopResponse "info";
                SetAgentState dop success (Some dopResponse) None;
                SetAgentState director success (Some "DOP đã xác nhận và lên phương án kỹ thuật.")
                  None ]
          | Rejected _ =>
              [ SetAgentState dop success (Some "DOP: Đã rõ, tôi sẽ điều chỉnh kỹ thuật ngay.")
                  None ]
          end
      end
  | MATERIAL_INHERITANCE =>
      match entities result, scenes state with
      | None, _ :: _ => [ Throw ]
      | None, [] =>
          [ SetAgentState director error (Some "Tôi không tìm thấy cảnh nguồn hoặc cảnh đích để đồng bộ.") None ]
      | Some ents, _ =>
      match find_scene state (sourceSceneId ents),
            find_scene state (targetSceneId ents) with
      | Some sourceScene, Some targetScene =>
          AddProductionLog director
            (text_or (response result) ("Đang trích xuất visual DNA từ cảnh " ++ sceneNumber sourceScene ++ " để áp dụng cho cảnh " ++ sceneNumber targetScene ++ ".")) "info" ::
          SetAgentState director thinking (Some "Đang phân tách chất liệu và ánh sáng...")
            (Some "Material Extraction") ::
          match callGeminiText key second_reply with
          | Rejected _ =>
              [ SetAgentState director error (Some "Không thể trích xuất DNA chất liệu.")
                  None ]
          | Resolved newPrompt =>
              UpdateStateAndRecord
                (replace_prompt (id targetScene) newPrompt) ::
              AddProductionLog director "Đang tự động tạo lại cảnh với DNA mới..." "info" ::
              SetAgentState director speaking (Some "Đang tạo lại ảnh với Visual DNA mới...")
                (Some "Regenerating") ::
              HandleGenerateAllImages [id targetScene] ::
              match generated with
              | Resolved _ =>
                  [ SetAgentState director success
                      (Some ("Đã đồng bộ và tạo lại cảnh " ++ sceneNumber targetScene ++ " với DNA từ cảnh " ++ sceneNumber sourceScene ++ ".")) None ]
              | Rejected _ =>
                  [ SetAgentState director error
                      (Some "Không thể trích xuất DNA chất liệu.") None ]
              end
          end
      | _, _ =>
          [ SetAgentState director error (Some "Tôi không tìm thấy cảnh nguồn hoặc cảnh đích để đồng bộ.") None ]
      end
      end
  | SYNC_AND_REGENERATE =>
      match entities result, scenes state with
      | None, _ :: _ => [ Throw ]
      | None, [] =>
          [ SetAgentState director error (Some "Tôi không tìm thấy cảnh nguồn hoặc cảnh đích.") None ]
      | Some ents, _ =>
      match find_scene state (sourceSceneId ents),
            find_scene state (targetSceneId ents) with
      | Some srcScene, Some tgtScene =>
          AddProductionLog director
            (text_or (response result) ("Đang sửa và tạo lại cảnh " ++ sceneNumber tgtScene ++ " theo DNA của cảnh " ++ sceneNumber srcScene ++ ".")) "info" ::
          SetAgentState director thinking (Some "Đang phân tích và đồng bộ DNA...")
            (Some "Sync & Regen") ::
          match callGeminiText key second_reply with
          | Rejected _ =>
              [ SetAgentState director error (Some "Lỗi khi đồng bộ và tạo lại cảnh.") None ]
          | Resolved fixedPrompt =>
              UpdateStateAndRecord
                (replace_prompt (id tgtScene) fixedPrompt) ::
              SetAgentState director speaking (Some ("Đang tạo lại cảnh " ++ sceneNumber tgtScene ++ "..."))
                (Some "Regenerating") ::
              HandleGenerateAllImages [id tgtScene] ::
              match generated with
              | Resolved _ =>
                  [ SetAgentState director success (Some ("Đã sửa và tạo lại cảnh " ++ sceneNumber tgtScene ++ " thành công!"))
                      None ]
              | Rejected _ =>
                  [ SetAgentState director error (Some "Lỗi khi đồng bộ và tạo lại cảnh.")
                      None ]
              end
          end
      | _, _ =>
          [ SetAgentState director error (Some "Tôi không tìm thấy cảnh nguồn hoặc cảnh đích.") None ]
      end
      end
  | other_intent =>
      [ AddProductionLog director
          (text_or (response result) "Tôi đã ghi nhận ý kiến của bạn.") "info";
        SetAgentState director success (response result) None ]
  end
  end.

(** Whether a trace ends with a TypeError. *)
Definition throws (e : effect) : bool :=
  match e with Throw => true | _ => false end.

(** What a list of effects does. *)
Definition stops_batch (e : effect) : bool :=
  match e with StopBatchGeneration => true | _ => false end.

Definition updates_state (e : effect) : bool :=
  match e with UpdateStateAndRecord _ => true | _ => false end.

Definition generates (e : effect) : bool :=
  match e with HandleGenerateAllImages _ => true | _ => false end.

(** The updaters handed to [updateStateAndRecord]. *)
Definition updaters (trace : list effect)
  : list (ProjectState -> ProjectState) :=
  flat_map (fun e => match e with
                     | UpdateStateAndRecord u => [u]
                     | _ => []
                     end) trace.

(** The scene ids for which images were requested. *)
Definition requested_ids (trace : list effect) : list (list string) :=
  flat_map (fun e => match e with
                     | HandleGenerateAllImages ids => [ids]
                     | _ => []
                     end) trace.

(** The status an agent is left in: that of its last [SetAgentState]. *)
Definition last_status (a : Agent) (trace : list effect)
  : option AgentStatus :=
  fold_left (fun acc e =>
               match e with
               | SetAgentState a' st _ _ =>
                   match a, a' with
                   | director, director | dop, dop => Some st
                   | _, _ => acc
                   end
               | _ => acc
               end) trace None.

End WithTypes.

Arguments mk_scene {SceneRest}.
Arguments id {SceneRest}.
Arguments sceneNumber {SceneRest}.
Arguments contextDescription {SceneRest}.
Arguments generatedImage {SceneRest}.
Arguments scene_rest {SceneRest}.
Arguments mk_project {SceneRest ProjectRest}.
Arguments scenes {SceneRest ProjectRest}.
Arguments project_rest {SceneRest ProjectRest}.
Arguments has_image {SceneRest}.
Arguments SetAgentState {SceneRest ProjectRest}.
Arguments AddProductionLog {SceneRest ProjectRest}.
Arguments StopBatchGeneration {SceneRest ProjectRest}.
Arguments UpdateStateAndRecord {SceneRest ProjectRest}.
Arguments HandleGenerateAllImages {SceneRest ProjectRest}.
Arguments Throw {SceneRest ProjectRest}.
Arguments throws {SceneRest ProjectRest}.
Arguments in_range {SceneRest}.
Arguments targetScenes_of {SceneRest ProjectRest}.
Arguments rewrite_styles {SceneRest ProjectRest}.
Arguments replace_prompt {SceneRest ProjectRest}.
Arguments find_scene {SceneRest ProjectRest}.
Arguments handleCommand {SceneRest ProjectRest}.
Arguments stops_batch {SceneRest ProjectRest}.
Arguments updates_state {SceneRest ProjectRest}.
Arguments generates {SceneRest ProjectRest}.
Arguments updaters {SceneRest ProjectRest}.
Arguments requested_ids {SceneRest ProjectRest}.
Arguments last_status {SceneRest ProjectRest}.

End DirectorChat.

(** Concrete data for the director chat. *)

Module DirectorExamples.
Import EditorFlows DirectorChat.
Local Open Scope string_scope.

Definition scene (i number description : string) (img : option string)
  : Scene unit :=
  mk_scene i number description img tt.

(** Three scenes; only the second has an image. *)
Definition project : ProjectState unit unit :=
  mk_project
    [ scene "s1" "1" "a knight rides out" None;
      scene "s2" "2" "the castle at dawn" (Some "data:image/png;base64,AA");
      scene "s3" "3" "the duel" None ]
    tt.

(** [parseInt] on the texts the examples use: the number its leading
    digits spell, NaN when there is none. *)
Fixpoint leading_digits (acc : option Z) (s : string) : option Z :=
  match s with
  | EmptyString => acc
  | String c rest =>
      let d := (Z.of_nat (Ascii.nat_of_ascii c) - 48)%Z in
      if (0 <=? d)%Z && (d <=? 9)%Z
      then leading_digits
             (Some (10 * match acc with Some a => a | None => 0 end + d)%Z)
             rest
      else acc
  end.

Definition parseInt_digits (s : string) : option Z := leading_digits None s.

(** A reply that is parsed as the command to redo scenes 2 to 3. *)
Definition redo_2_to_3 : IntentResult :=
  {| intent := Some "REGENERATE_RANGE";
     entities :=
       Some {| range := Some [2%Z; 3%Z];
          sceneIds := None;
          styleInstruction := None;
          directive := None;
          sourceSceneId := ref_missing;
          targetSceneId := ref_missing |};
     response := None |}.

(** A reply that is parsed as the command to give scene 3 the look of
    scene 2. *)
Definition sync_3_with_2 : IntentResult :=
  {| intent := Some "SYNC_AND_REGENERATE";
     entities :=
       Some {| range := None;
          sceneIds := None;
          styleInstruction := None;
          directive := None;
          sourceSceneId := ref_number 2;
          targetSceneId := ref_text "s3" |};
     response := None |}.

Definition restyle : IntentResult :=
  {| intent := Some "UPDATE_STYLE";
     entities :=
       Some {| range := None;
          sceneIds := None;
          styleInstruction := Some "film noir";
          directive := None;
          sourceSceneId := ref_missing;
          targetSceneId := ref_missing |};
     response := Some "OK" |}.

Definition same_text (s : string) : string := s.

End DirectorExamples.

(** ** The admin dashboard: [getAdminStats] *)

Module AdminStats.
Import Sql EditorFlows.

(** Equality on the values a [Set] of user ids holds (null included). *)
Definition user_id_eq_dec (x y : option uuid) : {x = y} + {x <> y}.
Proof.
  decide equality. apply N.eq_dec.
Defined.

(** The first query: [user_id, created_at] of the rows of
    [dop_prompt_records] the caller can read whose [created_at] is at
    least [now] minus 24 hours; times are in milliseconds. *)
Definition recent (now : timestamptz) (r : dop_prompt_records.row) : bool :=
  holds (cmp3 Z.leb (Some (now - 24 * 60 * 60 * 1000)%Z)
           (dop_prompt_records.created_at r)).

Definition recent_activity (now : timestamptz)
  (readable : dop_prompt_records.table)
  : list (option uuid * option timestamptz) :=
  map (fun r => (dop_prompt_records.user_id r,
                 dop_prompt_records.created_at r))
    (filter (recent now) readable).

(** [data || []] *)
Definition or_empty {A : Type} (data : option (list A)) : list A :=
  match data with
  | Some l => l
  | None => []
  end.

Section WithNumbers.

(** The rows of [user_global_stats] are untyped: a counter of a [stats]
    object is any JavaScript value, and so is a total once [+=] has added
    such a value to it. [value] is the type of these values, [zero] the
    number 0, and [plus_or_zero total v] the value of [total + (v || 0)],
    where [v] is [None] for a counter that is missing. *)
Variable value : Type.
Variable zero : value.
Variable plus_or_zero : value -> option value -> value.

(** The [stats] object of a row of [user_global_stats]: the counters
    [getAdminStats] reads, each of which may be missing. *)
Record stats : Type := mk_stats {
  stats_totalImages : option value;
  scenesGenerated : option value;
  charactersGenerated : option value;
  stats_geminiImages : option value;
  stats_gommoImages : option value;
  textTokens : option value
}.

Record AdminStats : Type := mk_admin_stats {
  totalUsers : nat;
  activeUsers24h : nat;
  totalImages : value;
  totalScenes : value;
  totalCharacters : value;
  geminiImages : value;
  gommoImages : value;
  totalTextTokens : value
}.

(** [(row.stats || {}).field]: missing when the row has no [stats]. *)
Definition counter (field : stats -> option value) (row : option stats)
  : option value :=
  match row with
  | Some s => field s
  | None => None
  end.

(** One step of the [forEach] over the rows of [user_global_stats]. *)
Definition add_row (acc : AdminStats) (row : option stats) : AdminStats :=
  {| totalUsers := totalUsers acc;
     activeUsers24h := activeUsers24h acc;
     totalImages :=
       plus_or_zero (totalImages acc) (counter stats_totalImages row);
     totalScenes :=
       plus_or_zero (totalScenes acc) (counter scenesGenerated row);
     totalCharacters :=
       plus_or_zero (totalCharacters acc)
         (counter charactersGenerated row);
     geminiImages :=
       plus_or_zero (geminiImages acc) (counter stats_geminiImages row);
     gommoImages :=
       plus_or_zero (gommoImages acc) (counter stats_gommoImages row);
     totalTextTokens :=
       plus_or_zero (totalTextTokens acc) (counter textTokens row) |}.

Definition no_stats : AdminStats :=
  {| totalUsers := 0;
     activeUsers24h := 0;
     totalImages := zero;
     totalScenes := zero;
     totalCharacters := zero;
     geminiImages := zero;
     gommoImages := zero;
     totalTextTokens := zero |}.

(** [getAdminStats]: the two arguments are how the two queries ended,
    with their [data] (null on an error of the query). A query that
    throws takes the function to its [catch]. *)
Definition getAdminStats
  (recentActivity : settled (option (list (option uuid * option timestamptz))))
  (globalStats : settled (option (list (option stats)))) : AdminStats :=
  match recentActivity, globalStats with
  | Resolved activity, Resolved rows =>
      fold_left add_row (or_empty rows)
        {| totalUsers := List.length (or_empty rows);
           activeUsers24h :=
             List.length
               (nodup user_id_eq_dec (map fst (or_empty activity)));
           totalImages := zero;
           totalScenes := zero;
           totalCharacters := zero;
           geminiImages := zero;
           gommoImages := zero;
           totalTextTokens := zero |}
  | _, _ => no_stats
  end.

End WithNumbers.

Arguments totalUsers {value}.
Arguments activeUsers24h {value}.

End AdminStats.

(** ** Texts as the scripts handle them

    A text is a sequence of characters, here those of [string]. *)

Module JsString.
Local Open Scope string_scope.

(** [s.startsWith(start)] *)
Definition startsWith (s start : string) : bool := String.prefix start s.

(** [s.indexOf(part)]: where [part] first occurs in [s], or -1. *)
Definition indexOf (s part : string) : Z :=
  match String.index 0 part s with
  | Some n => Z.of_nat n
  | None => (-1)%Z
  end.

(** [s.substring(from, to)]: both bounds are brought into
    [0 .. s.length], and swapped when the first is the larger. *)
Definition substring (s : string) (from to : Z) : string :=
  let bound (i : Z) :=
    Z.to_nat (Z.min (Z.max i 0) (Z.of_nat (String.length s))) in
  let first := Nat.min (bound from) (bound to) in
  let last := Nat.max (bound from) (bound to) in
  String.substring first (last - first) s.

(** The scan of [split]: [skip] characters of a separator just met are
    still to be passed over, [piece] is what was read since the last
    separator. *)
Fixpoint split_from (separator : string) (skip : nat) (piece s : string)
  : list string :=
  match s with
  | EmptyString => [piece]
  | String c rest =>
      match skip with
      | S k => split_from separator k piece rest
      | O =>
          if String.prefix separator s
          then piece ::
               split_from separator (String.length separator - 1)
                 EmptyString rest
          else split_from separator 0 (piece ++ String c EmptyString) rest
      end
  end.

(** [s.split(separator)]; the empty separator cuts between any two
    characters. *)
Definition split (s separator : string) : list string :=
  match separator with
  | EmptyString =>
      map (fun c => String c EmptyString) (list_ascii_of_string s)
  | _ => split_from separator 0 EmptyString s
  end.

End JsString.

(** ** Images for the model: [safeGetImageData] and [callGeminiAPI] *)

Module GeminiUtils.
Import EditorFlows JsString.
Local Open Scope string_scope.

(** The object [{ data, mimeType }]; either field may be [undefined] when
    the script runs. *)
Record InlineData : Type := mk_inline_data {
  data : option string;
  mimeType : option string
}.

(** How the download of an image ends: [response.ok], [blob.type] and the
    data URL that [readAsDataURL] gives. *)
Record Download : Type := mk_download {
  ok : bool;
  blob_type : string;
  reader_result : string
}.

Inductive Part : Type :=
| inlineData_part (image : InlineData)
| text_part (text : string).

(** The argument of [generateContent]. *)
Record GenerateContentParameters : Type := mk_parameters {
  model : string;
  parts : list Part;
  aspectRatio : string
}.

Section WithServices.
Variable trim : string -> string.
(** [fetch], [blob] and the [FileReader], for an address. *)
Variable fetch : string -> settled Download.
(** [generateContent] for a key: how it ends, with
    [candidates?.[0]?.content?.parts] of the response, each part with its
    [inlineData] if it has one. *)
Variable generateContent :
  string -> GenerateContentParameters ->
  settled (option (list (option InlineData))).

(** [safeGetImageData] *)
Definition safeGetImageData (imageStr : string) : option InlineData :=
  match imageStr with
  | EmptyString => None
  | _ =>
      if startsWith imageStr "data:" then
        let mimeType := substring imageStr 5 (indexOf imageStr ";") in
        let data := nth_error (split imageStr "base64,") 1 in
        Some {| data := data; mimeType := Some mimeType |}
      else if startsWith imageStr "http" then
        match fetch imageStr with
        | Resolved response =>
            if ok response then
              let mimeType :=
                match blob_type response with
                | EmptyString => "image/jpeg"
                | type => type
                end in
              Some {| data :=
                        nth_error (split (reader_result response) ",") 1;
                      mimeType := Some mimeType |}
            else None
        | Rejected _ => None
        end
      else None
  end.

(** The data URL that [callGeminiAPI] returns for the image of a
    response. *)
Definition data_url (image : InlineData) : string :=
  "data:" ++ DirectorChat.text_or_undefined (mimeType image) ++ ";base64," ++
  DirectorChat.text_or_undefined (data image).

Definition is_image (part : option InlineData) : bool :=
  match part with
  | Some _ => true
  | None => false
  end.

(** The request that [callGeminiAPI] sends. *)
Definition request (prompt aspectRatio imageModel : string)
  (imageContext : option string) : GenerateContentParameters :=
  let finalModel :=
    if imageModel =? "gemini-2.0-flash"
    then "gemini-2.0-flash-preview-image-generation"
    else imageModel in
  let context :=
    match imageContext with
    | Some imageContext =>
        match safeGetImageData imageContext with
        | Some contextData =>
            [ inlineData_part {| data := data contextData;
                                 mimeType := mimeType contextData |} ]
        | None => []
        end
    | None => []
    end in
  {| model := finalModel;
     parts := context ++ [text_part prompt];
     aspectRatio := aspectRatio |}.

(** [callGeminiAPI] *)
Definition callGeminiAPI (apiKey : option string)
  (prompt aspectRatio imageModel : string) (imageContext : option string)
  : option string :=
  match option_map trim apiKey with
  | None | Some EmptyString => None
  | Some trimmedKey =>
      match generateContent trimmedKey
              (request prompt aspectRatio imageModel imageContext) with
      | Resolved response =>
          match response with
          | Some parts =>
              match find is_image parts with
              | Some (Some inlineData) => Some (data_url inlineData)
              | _ => None
              end
          | None => None
          end
      | Rejected _ => None
      end
  end.

End WithServices.
End GeminiUtils.

Module GeminiExamples.
Import EditorFlows GeminiUtils.
Local Open Scope string_scope.

(** No download succeeds. *)
Definition offline (address : string) : settled Download :=
  Rejected (Some "Failed to fetch").

Definition png : InlineData :=
  {| data := Some "QUJD"; mimeType := Some "image/png" |}.

(** A response with a text part and then an image. *)
Definition one_image (key : string) (parameters : GenerateContentParameters)
  : settled (option (list (option InlineData))) :=
  Resolved (Some [None; Some png]).

End GeminiExamples.

(* ================================================================== *)
(** * Part II: properties *)
(* ================================================================== *)

(** ** Three-valued logic, floats, WHERE, ORDER BY and LIMIT *)

Module SqlFacts.
Import Sql.

Lemma holds_and3 (a b : tvl) :
  holds (and3 a b) = true <-> holds a = true /\ holds b = true.
Proof.
  destruct a as [[|]|], b as [[|]|]; simpl; intuition congruence.
Qed.

Lemma holds_or3 (a b : tvl) :
  holds (or3 a b) = true <-> holds a = true \/ holds b = true.
Proof.
  destruct a as [[|]|], b as [[|]|]; simpl; intuition congruence.
Qed.

Lemma holds_cmp3 {A B : Type} (f : A -> B -> bool) x y :
  holds (cmp3 f x y) = true <->
  exists a b, x = Some a /\ y = Some b /\ f a b = true.
Proof.
  destruct x as [a|], y as [b|]; simpl; split.
  - intros H. exists a, b. destruct (f a b); auto; discriminate.
  - intros (a' & b' & Ha & Hb & Hf). inversion Ha; inversion Hb; subst.
    now rewrite Hf.
  - discriminate.
  - intros (a' & b' & _ & Hb & _). discriminate.
  - discriminate.
  - intros (a' & b' & Ha & _). discriminate.
  - discriminate.
  - intros (a' & b' & Ha & _). discriminate.
Qed.

(** The order of floats is a total preorder. *)
Lemma float_le_total (a b : float) :
  float_le a b = true \/ float_le b a = true.
Proof.
  destruct a as [x| | |], b as [y| | |]; simpl; auto.
  rewrite !Qle_bool_iff.
  destruct (Qlt_le_dec x y) as [H|H]; [left; now apply Qlt_le_weak|now right].
Qed.

Lemma float_le_trans (a b c : float) :
  float_le a b = true -> float_le b c = true -> float_le a c = true.
Proof.
  destruct a as [x| | |], b as [y| | |], c as [z| | |]; simpl; auto;
    try discriminate.
  rewrite !Qle_bool_iff. apply Qle_trans.
Qed.

(** [1 - d] turns the order around, except that NaN stays NaN. *)
Lemma one_minus_antitone (float8 : rounding) (a b : float) :
  float_le a b = true -> a <> NaN -> b <> NaN ->
  float_le (one_minus float8 b) (one_minus float8 a) = true.
Proof.
  destruct a as [x| | |], b as [y| | |]; simpl; auto; try congruence.
  rewrite !Qle_bool_iff. intros H _ _.
  apply round_monotone. Lqa.lra.
Qed.

Lemma one_minus_NaN (float8 : rounding) (a : float) :
  one_minus float8 a = NaN <-> a = NaN.
Proof.
  destruct a; simpl; split; congruence.
Qed.

Section SelectWhere.
Context {A : Type} (condition : A -> result bool).

Lemma select_where_cases (rows : list A) :
  (select_where condition rows = Ok (filter (verdict condition) rows) /\
   forall r, In r rows -> condition r = Ok (verdict condition r)) \/
  (exists r e, In r rows /\ condition r = Raise e /\
               select_where condition rows = Raise e).
Proof.
  induction rows as [|x rows IH]; simpl.
  - left. split; [reflexivity|intros r []].
  - unfold verdict at 1. destruct (condition x) as [b|e] eqn:Hx.
    + destruct IH as [[-> Hall]|(r & e & Hr & He & ->)].
      * left. split; [reflexivity|].
        intros r [<-|Hr]; [|now apply Hall].
        unfold verdict. now rewrite Hx.
      * right. exists r, e. auto.
    + right. exists x, e. auto.
Qed.

Lemma select_where_app (rows : list A) (r : A) :
  condition r = Ok false ->
  select_where condition (rows ++ [r]) = select_where condition rows.
Proof.
  intros Hr. induction rows as [|x rows IH]; simpl.
  - now rewrite Hr.
  - rewrite IH. reflexivity.
Qed.

End SelectWhere.

Section OrderByFacts.
Context {A K : Type} (key : A -> K) (le : K -> K -> bool).
Variable tiebreak : A -> nat.

Lemma In_insert_row x y l :
  In x (insert_row key le tiebreak y l) <-> x = y \/ In x l.
Proof.
  induction l as [|z l IH]; simpl.
  - intuition.
  - destruct (before key le tiebreak y z); simpl; rewrite ?IH; intuition.
Qed.

Lemma In_order_by x l : In x (order_by key le tiebreak l) <-> In x l.
Proof.
  induction l as [|y l IH]; simpl; [tauto|].
  rewrite In_insert_row, IH. intuition.
Qed.



(** The order of the keys: [le] is total and transitive. *)
Hypothesis le_total : forall a b, le a b = true \/ le b a = true.
Hypothesis le_trans :
  forall a b c, le a b = true -> le b c = true -> le a c = true.

Lemma before_key_le x y :
  before key le tiebreak x y = true -> key_le key le x y.
Proof.
  unfold before, key_le. intros H. apply andb_true_iff in H. tauto.
Qed.

Lemma before_total x y :
  before key le tiebreak x y = true \/ before key le tiebreak y x = true.
Proof.
  unfold before.
  destruct (le (key x) (key y)) eqn:Hxy, (le (key y) (key x)) eqn:Hyx;
    simpl; auto.
  - destruct (Nat.leb_spec (tiebreak x) (tiebreak y)); [now left|right].
    apply Nat.leb_le. lia.
  - destruct (le_total (key x) (key y)); congruence.
Qed.

Lemma before_trans x y z :
  before key le tiebreak x y = true -> before key le tiebreak y z = true ->
  before key le tiebreak x z = true.
Proof.
  unfold before. rewrite !andb_true_iff, !orb_true_iff, !negb_true_iff,
    !Nat.leb_le.
  intros [Hxy Hxy'] [Hyz Hyz']. split; [eauto|].
  destruct (le (key z) (key x)) eqn:Hzx; [right|now left].
  assert (Hzy : le (key z) (key y) = true) by eauto.
  assert (Hyx : le (key y) (key x) = true) by eauto.
  destruct Hxy' as [?|?]; [congruence|].
  destruct Hyz' as [?|?]; [congruence|]. lia.
Qed.

Lemma insert_row_sorted x l :
  StronglySorted (fun a b => before key le tiebreak a b = true) l ->
  StronglySorted (fun a b => before key le tiebreak a b = true)
    (insert_row key le tiebreak x l).
Proof.
  induction 1 as [|y l Hs IH Hy]; simpl.
  - repeat constructor.
  - destruct (before key le tiebreak x y) eqn:E.
    + constructor; [now constructor|].
      constructor; [exact E|].
      rewrite Forall_forall in Hy |- *. intros z Hz.
      eapply before_trans; [exact E|]. now apply Hy.
    + constructor; [exact IH|].
      rewrite Forall_forall in Hy |- *. intros z Hz.
      apply In_insert_row in Hz. destruct Hz as [->|Hz]; [|now apply Hy].
      destruct (before_total x y) as [H|H]; [congruence|exact H].
Qed.

Lemma order_by_sorted_before l :
  StronglySorted (fun a b => before key le tiebreak a b = true)
    (order_by key le tiebreak l).
Proof.
  induction l as [|x l IH]; simpl; [constructor|].
  now apply insert_row_sorted.
Qed.

End OrderByFacts.

Lemma In_firstn {A : Type} (n : nat) (l : list A) x :
  In x (firstn n l) -> In x l.
Proof.
  intros H. rewrite <- (firstn_skipn n l). apply in_or_app. now left.
Qed.

Lemma firstn_sorted {A : Type} (R : A -> A -> Prop) (n : nat) l :
  StronglySorted R l -> StronglySorted R (firstn n l).
Proof.
  intros H. revert n.
  induction H as [|x l Hs IH Hx]; intros [|n]; simpl; try constructor.
  - apply IH.
  - rewrite Forall_forall in Hx |- *. intros y Hy.
    apply Hx. eapply In_firstn; eauto.
Qed.

Lemma map_sorted {A B : Type} (R : A -> A -> Prop) (S : B -> B -> Prop)
  (f : A -> B) l :
  (forall a b, In a l -> In b l -> R a b -> S (f a) (f b)) ->
  StronglySorted R l -> StronglySorted S (map f l).
Proof.
  intros HRS H. induction H as [|x l Hs IH Hx]; simpl; constructor.
  - apply IH. intros a b Ha Hb. apply HRS; now right.
  - rewrite Forall_forall in Hx |- *. intros y Hy.
    apply in_map_iff in Hy. destruct Hy as (z & <- & Hz).
    apply HRS; [now left|now right|now apply Hx].
Qed.

Lemma sorted_weaken {A : Type} (R S : A -> A -> Prop) (l : list A) :
  (forall a b, In a l -> In b l -> R a b -> S a b) ->
  StronglySorted R l -> StronglySorted S l.
Proof.
  intros H Hs. rewrite <- (map_id l). eapply map_sorted; eauto.
Qed.

(** ORDER BY gives the rows in the order of their keys. *)
Lemma order_by_sorted {A K : Type} (key : A -> K) (le : K -> K -> bool)
  (tiebreak : A -> nat) (l : list A) :
  (forall a b, le a b = true \/ le b a = true) ->
  (forall a b c, le a b = true -> le b c = true -> le a c = true) ->
  StronglySorted (key_le key le) (order_by key le tiebreak l).
Proof.
  intros Htotal Htrans.
  eapply sorted_weaken;
    [|apply order_by_sorted_before; [exact Htotal|exact Htrans]].
  intros a b _ _. apply before_key_le.
Qed.




Lemma limit_cases {A : Type} (n : Z) (rows : result (list A)) :
  ((n < 0)%Z /\ limit n rows = Raise invalid_row_count_in_limit_clause) \/
  (n = 0%Z /\ limit n rows = Ok []) \/
  ((0 < n)%Z /\
   limit n rows = match rows with
                  | Ok l => Ok (firstn (Z.to_nat n) l)
                  | Raise e => Raise e
                  end).
Proof.
  unfold limit. destruct (Z.ltb_spec n 0); [left; auto|right].
  destruct (Z.eqb_spec n 0); [left; auto|right]. split; [lia|reflexivity].
Qed.

Lemma asc_nulls_last_total {K : Type} (le : K -> K -> bool) :
  (forall a b, le a b = true \/ le b a = true) ->
  forall a b,
    asc_nulls_last le a b = true \/ asc_nulls_last le b a = true.
Proof.
  intros H [x|] [y|]; simpl; auto.
Qed.

Lemma asc_nulls_last_trans {K : Type} (le : K -> K -> bool) :
  (forall a b c, le a b = true -> le b c = true -> le a c = true) ->
  forall a b c,
    asc_nulls_last le a b = true -> asc_nulls_last le b c = true ->
    asc_nulls_last le a c = true.
Proof.
  intros H [x|] [y|] [z|]; simpl; auto; try discriminate. apply H.
Qed.

Lemma desc_nulls_first_total (a b : option Z) :
  desc_nulls_first Z.leb a b = true \/ desc_nulls_first Z.leb b a = true.
Proof.
  destruct a as [x|], b as [y|]; simpl; auto.
  rewrite !Z.leb_le. lia.
Qed.

Lemma desc_nulls_first_trans (a b c : option Z) :
  desc_nulls_first Z.leb a b = true -> desc_nulls_first Z.leb b c = true ->
  desc_nulls_first Z.leb a c = true.
Proof.
  destruct a as [x|], b as [y|], c as [z|]; simpl; auto; try discriminate.
  rewrite !Z.leb_le. lia.
Qed.


End SqlFacts.

(** ** [search_similar_prompts] *)

Module SearchFacts.
Import Sql SqlFacts dop_prompt_records Search Properties.

Lemma approved_iff (x : option bool) :
  holds (bool_eq3 x (Some true)) = true <-> x = Some true.
Proof.
  destruct x as [[|]|]; simpl; split; congruence.
Qed.

Lemma at_least_iff (x : option float) (c : float) :
  holds (ge3 x (Some c)) = true <->
  exists s, x = Some s /\ float_ge s c = true.
Proof.
  unfold ge3. rewrite holds_cmp3. split.
  - intros (a & b & -> & Hb & H). inversion Hb; subst. eauto.
  - intros (s & -> & H). eauto.
Qed.

(** An absent filter matches every row, a supplied one matches exactly. *)
Lemma filter_iff (supplied : option string) (v : string) :
  holds (or3 (is_null supplied) (text_eq3 (Some v) supplied)) = true <->
  forall t, supplied = Some t -> v = t.
Proof.
  destruct supplied as [t|]; simpl.
  - destruct (String.eqb_spec v t) as [->|Hne]; simpl; split.
    + intros _ t' Ht. now inversion Ht.
    + reflexivity.
    + discriminate.
    + intros H. elim Hne. now apply H.
  - split; [discriminate|reflexivity].
Qed.

Lemma plain_conditions_iff mmt mm r :
  holds (plain_conditions mmt mm r) = true <->
  was_approved r = Some true /\
  (exists s, quality_score r = Some s /\
             float_ge s (finite (7 # 10)) = true) /\
  (forall t, mmt = Some t -> model_type r = t) /\
  (forall m, mm = Some m -> mode r = m) /\
  (exists e, embedding r = Some e).
Proof.
  unfold plain_conditions.
  rewrite !holds_and3, approved_iff, at_least_iff, !filter_iff.
  destruct (embedding r) as [e|]; simpl.
  - split; [intros ((((? & ?) & ?) & ?) & _)|]; intuition eauto.
  - split.
    + intros (_ & H). discriminate.
    + intros (_ & _ & _ & _ & (e & He)). discriminate.
Qed.

Section WithExecutor.
Variable float8 : rounding.
Variable cosine_distance : vector -> vector -> float.
Variable plan : scan.
Variable tiebreak : row -> nat.

(** The WHERE clause keeps exactly the eligible rows. *)
Lemma where_clause_true q mmt mm thr r :
  where_clause float8 cosine_distance q mmt mm thr r = Ok true <->
  eligible float8 cosine_distance q mmt mm thr r.
Proof.
  unfold where_clause, eligible.
  destruct (holds (plain_conditions mmt mm r)) eqn:Hplain.
  - apply plain_conditions_iff in Hplain.
    destruct Hplain as (Ha & Hq & Ht & Hm & (e & He)).
    unfold similarity_of, distance, compare. rewrite He.
    destruct (Nat.eqb_spec (List.length e) (List.length q)) as [Hlen|Hlen].
    + cbn [option_map].
      destruct (holds (ge3 (Some (one_minus float8 (cosine_distance e q)))
                         (Some thr))) eqn:Hge.
      * apply at_least_iff in Hge. destruct Hge as (s & Hs & Hge).
        inversion Hs; subst s.
        split; [intros _|reflexivity].
        repeat split; auto. exists e. auto.
      * split; [discriminate|].
        intros (_ & _ & _ & _ & (e' & He' & _ & Hge')).
        inversion He'; subst e'.
        assert (H : holds (ge3 (Some (one_minus float8 (cosine_distance e q)))
                             (Some thr)) = true)
          by (apply at_least_iff; eauto).
        congruence.
    + split; [discriminate|].
      intros (_ & _ & _ & _ & (e' & He' & Hlen' & _)).
      inversion He'; subst e'. contradiction.
  - split; [discriminate|].
    intros (Ha & Hq & Ht & Hm & (e & He & _)).
    assert (H : holds (plain_conditions mmt mm r) = true)
      by (apply plain_conditions_iff; eauto 10).
    congruence.
Qed.

(** It raises only on an embedding that does not have the dimension of
    the query. *)
Lemma where_clause_raise q mmt mm thr r err :
  where_clause float8 cosine_distance q mmt mm thr r = Raise err ->
  err = data_exception /\
  exists e, embedding r = Some e /\ List.length e <> List.length q.
Proof.
  unfold where_clause, similarity_of, distance, compare.
  destruct (holds (plain_conditions mmt mm r)); [|discriminate].
  destruct (embedding r) as [e|]; [|discriminate].
  destruct (Nat.eqb_spec (List.length e) (List.length q)) as [Hlen|Hlen];
    [discriminate|].
  intros H. inversion H. eauto.
Qed.

Lemma begin_scan_raise q err :
  begin_scan plan q = Raise err ->
  err = data_exception /\
  exists probed, plan = ivfflat probed /\ List.length q <> embedding_dim.
Proof.
  unfold begin_scan. destruct plan as [|probed]; [discriminate|].
  destruct (Nat.eqb_spec (List.length q) embedding_dim); [discriminate|].
  intros H. inversion H. eauto.
Qed.

Lemma matching_rows_cases records q mmt mm thr :
  match matching_rows float8 cosine_distance plan tiebreak records q mmt mm thr
  with
  | Ok rows =>
      rows = order_by (distance_key cosine_distance q)
               (asc_nulls_last float_le) tiebreak
               (filter
                  (verdict (where_clause float8 cosine_distance q mmt mm thr))
                  (filter (visited plan) records)) /\
      forall r, In r rows <->
                In r records /\ visited plan r = true /\
                eligible float8 cosine_distance q mmt mm thr r
  | Raise err =>
      err = data_exception /\ dimension_mismatch plan records q
  end.
Proof.
  unfold matching_rows.
  destruct (begin_scan plan q) as [[]|err] eqn:Hbegin.
  - destruct (select_where_cases
                (where_clause float8 cosine_distance q mmt mm thr)
                (filter (visited plan) records))
      as [[-> Hall]|(r & e & Hr & He & ->)].
    + split; [reflexivity|]. intros r.
      rewrite In_order_by, !filter_In. split.
      * intros ((Hin & Hv) & Hw). split; [exact Hin|]. split; [exact Hv|].
        apply where_clause_true.
        rewrite (Hall r) by (apply filter_In; auto). now rewrite Hw.
      * intros (Hin & Hv & He). split; [split; assumption|].
        apply where_clause_true in He. unfold verdict. now rewrite He.
    + apply where_clause_raise in He. destruct He as (-> & e' & He' & Hlen).
      split; [reflexivity|]. right. exists r, e'.
      apply filter_In in Hr. tauto.
  - apply begin_scan_raise in Hbegin. destruct Hbegin as (-> & H).
    split; [reflexivity|]. now left.
Qed.

(** When the dimensions agree nothing raises. *)
Lemma matching_rows_agree records q mmt mm thr :
  dimensions_agree records q ->
  exists rows,
    matching_rows float8 cosine_distance plan tiebreak records q mmt mm thr
    = Ok rows.
Proof.
  intros (Hq & Hall).
  pose proof (matching_rows_cases records q mmt mm thr) as H.
  destruct (matching_rows float8 cosine_distance plan tiebreak records
              q mmt mm thr) as [rows|err]; [eauto|].
  exfalso. destruct H as (_ & [(probed & _ & Hne)|(r & e & Hr & He & Hne)]).
  - contradiction.
  - apply Hne. rewrite (Hall r e Hr He). now rewrite Hq.
Qed.

Lemma distance_key_of_eligible q mmt mm thr r :
  eligible float8 cosine_distance q mmt mm thr r ->
  exists e, embedding r = Some e /\
            distance_key cosine_distance q r = Some (cosine_distance e q).
Proof.
  intros (_ & _ & _ & _ & (e & He & _)). exists e.
  unfold distance_key. now rewrite He.
Qed.

(** Rows in increasing order of distance are in descending order of
    similarity, the NaN last. *)
Lemma distance_order_similarity q a b da db :
  distance_key cosine_distance q a = Some da ->
  distance_key cosine_distance q b = Some db ->
  key_le (distance_key cosine_distance q) (asc_nulls_last float_le) a b ->
  similarity_ge (select float8 cosine_distance q a)
    (select float8 cosine_distance q b).
Proof.
  unfold key_le, similarity_ge, select. cbn [similarity].
  intros -> ->. cbn [asc_nulls_last option_map]. intros Hle.
  unfold descending.
  destruct da as [x| | |], db as [y| | |]; simpl in *; auto;
    try discriminate.
  rewrite Qle_bool_iff in *. apply round_monotone. Lqa.lra.
Qed.


End WithExecutor.
End SearchFacts.

Module SearchTheorems.
Import Sql SqlFacts dop_prompt_records Search Properties SearchFacts.

Section WithExecutor.
Variable float8 : rounding.
Variable cosine_distance : vector -> vector -> float.
Variable plan : scan.
Variable tiebreak : row -> nat.



(** C7, as amended: when the count is not negative, the query and the
    stored embeddings have the 768 components of the column, and no
    stored record is eligible at the given threshold (none has a
    similarity that is at least the threshold or is NaN),
    [search_similar_prompts] returns the empty sequence, and does not
    raise. *)
Theorem search_empty_when_nothing_eligible records q mmt mm k thr :
  (0 <= k)%Z ->
  dimensions_agree records q ->
  (forall r, In r records ->
             ~ eligible float8 cosine_distance q mmt mm thr r) ->
  search_similar_prompts float8 cosine_distance plan tiebreak records
    q mmt mm k thr
  = Ok [].
Proof.
  intros Hk Hdim Hnone. unfold search_similar_prompts.
  destruct (matching_rows_agree float8 cosine_distance plan tiebreak records
              q mmt mm thr Hdim) as (rows & Hrows).
  pose proof (matching_rows_cases float8 cosine_distance plan tiebreak records
                q mmt mm thr) as Hcases.
  rewrite Hrows in Hcases |- *. destruct Hcases as (_ & Hin).
  assert (Hempty : rows = []).
  { destruct rows as [|r l]; [reflexivity|].
    destruct (proj1 (Hin r) (or_introl eq_refl)) as (Hr & _ & He).
    elim (Hnone r Hr He). }
  subst rows.
  destruct (limit_cases k (Ok (map (select float8 cosine_distance q) [])))
    as [[Hneg _]|[[_ ->]|[_ ->]]]; [lia|reflexivity|].
  simpl. now rewrite firstn_nil.
Qed.

End WithExecutor.

Import Examples.

(** Of the six records of [mixed_records] only the first passes every
    condition of the search for scenes of "imagen" near the first axis. *)
Example search_mixed_records :
  search_similar_prompts unrounded unit_cosine_distance sequential scan_order
    mixed_records axis1 (Some "imagen"%string) (Some "scene"%string)
    default_match_count default_similarity_threshold
  = Ok [select unrounded unit_cosine_distance axis1 good_record].
Proof.
  vm_compute. reflexivity.
Qed.



(** C7: with a negative count the call raises, even on an empty table;
    and with a count of 2 it raises for a query of 512 components, though
    the one stored record is not eligible. *)
Lemma search_raises_with_nothing_eligible :
  ((forall r, In r [] ->
      ~ eligible unrounded unit_cosine_distance axis1 None None
          (finite (99 # 100)) r) /\
   search_similar_prompts unrounded unit_cosine_distance sequential scan_order
     [] axis1 None None (-1) (finite (99 # 100))
   = Raise invalid_row_count_in_limit_clause) /\
  ((forall r, In r [good_record] ->
      ~ eligible unrounded unit_cosine_distance short None None
          (finite (99 # 100)) r) /\
   search_similar_prompts unrounded unit_cosine_distance sequential scan_order
     [good_record] short None None 2 (finite (99 # 100))
   = Raise data_exception).
Proof.
  split; (split; [|vm_compute; reflexivity]).
  - intros r [].
  - intros r [<-|[]] (_ & _ & _ & _ & (e & He & Hlen & _)).
    inversion He; subst e. vm_compute in Hlen. discriminate.
Qed.

(** The scenario of the specification: [k = 2], a threshold of 0.99, and
    two stored records that are orthogonal to the query. *)
Lemma search_empty_witness :
  search_similar_prompts unrounded unit_cosine_distance sequential scan_order
    tied_records axis2 None None 2 (finite (99 # 100)) = Ok [].
Proof.
  apply (search_empty_when_nothing_eligible unrounded unit_cosine_distance
           sequential scan_order tied_records axis2 None None 2
           (finite (99 # 100))).
  - lia.
  - split; [reflexivity|].
    intros r e [<-|[<-|[]]] He; inversion He; subst; reflexivity.
  - intros r Hr (_ & _ & _ & _ & (e & He & _ & Hge)).
    destruct Hr as [<-|[<-|[]]]; inversion He; subst;
      vm_compute in Hge; discriminate.
Defined.

End SearchTheorems.

(** ** [get_model_best_keywords] *)

Module KeywordsFacts.
Import Sql SqlFacts dop_model_learnings Keywords Properties.

Section WithExecutor.
Variable int4in : string -> result Z.

Lemma jsonb_get_text_member members k text :
  jsonb_get_text (jsonb_object members) k = Some text ->
  In (k, Some text) members.
Proof.
  unfold jsonb_get_text.
  destruct (find (fun kv => (fst kv =? k)%string) members)
    as [[k' v]|] eqn:Hfind; [|discriminate].
  intros ->. apply find_some in Hfind. destruct Hfind as [Hin Hk].
  apply String.eqb_eq in Hk. simpl in Hk. now subst.
Qed.

Lemma keyword_frequencies_raise o keys e :
  keyword_frequencies int4in o keys = Raise e ->
  exists k text, jsonb_get_text o k = Some text /\ int4in text = Raise e.
Proof.
  induction keys as [|k keys IH]; simpl; [discriminate|].
  unfold to_int at 1.
  destruct (jsonb_get_text o k) as [text|] eqn:Hget.
  - destruct (int4in text) as [n|e'] eqn:Hcast.
    + destruct (keyword_frequencies int4in o keys); [discriminate|].
      intros H. apply IH. exact H.
    + intros H. inversion H; subst. eauto.
  - destruct (keyword_frequencies int4in o keys); [discriminate|].
    intros H. apply IH. exact H.
Qed.

Lemma keywords_of_row_raise r e :
  keywords_of_row int4in r = Raise e -> unreadable int4in r e.
Proof.
  unfold keywords_of_row, unreadable.
  destruct (common_keywords r) as [[members|]|]; simpl.
  - intros H. right. apply keyword_frequencies_raise in H.
    destruct H as (k & text & Hget & Hcast).
    exists members, k, text. split; [reflexivity|].
    split; [now apply jsonb_get_text_member|exact Hcast].
  - intros H. inversion H. now left.
  - discriminate.
Qed.

Lemma keywords_of_rows_raise rows e :
  keywords_of_rows int4in rows = Raise e ->
  exists r, In r rows /\ unreadable int4in r e.
Proof.
  induction rows as [|r rows IH]; simpl; [discriminate|].
  destruct (keywords_of_row int4in r) as [first|e'] eqn:Hrow.
  - destruct (keywords_of_rows int4in rows) as [rest|e'']; [discriminate|].
    intros H. destruct (IH H) as (r' & Hr' & Hbad). eauto.
  - intros H. inversion H; subst. exists r. split; [now left|].
    now apply keywords_of_row_raise.
Qed.

Lemma keyword_rows_raise learnings target e :
  keyword_rows int4in learnings target = Raise e ->
  exists r, In r learnings /\ model_type r = target /\
            unreadable int4in r e.
Proof.
  unfold keyword_rows. intros H.
  apply keywords_of_rows_raise in H. destruct H as (r & Hr & Hbad).
  apply filter_In in Hr. destruct Hr as [Hr Hm].
  apply String.eqb_eq in Hm. eauto.
Qed.

Lemma frequency_order (a b : keyword_row) :
  key_le frequency (desc_nulls_first Z.leb) a b -> frequency_ge a b.
Proof.
  unfold key_le, frequency_ge.
  destruct (frequency a) as [x|], (frequency b) as [y|]; simpl; auto.
  - now rewrite Z.leb_le.
  - discriminate.
Qed.

End WithExecutor.
End KeywordsFacts.

Module KeywordsTheorems.
Import Sql SqlFacts dop_model_learnings Keywords Properties KeywordsFacts.

Section WithExecutor.
Variable int4in : string -> result Z.
Variable tiebreak : keyword_row -> nat.

(** C5, as amended: when [get_model_best_keywords] returns, its (keyword,
    frequency) rows are in descending order of frequency, a NULL
    frequency (a JSON null) first, and there are at most [keyword_limit]
    of them; whatever order the executor gives to keywords of the same
    frequency. It raises for a negative limit and, with a positive limit,
    when a row of the model type holds a [common_keywords] that is not an
    object or a count that the cast to INT does not accept. *)
Theorem best_keywords_sorted_and_limited learnings target n :
  match get_model_best_keywords int4in tiebreak learnings target n with
  | Ok rows =>
      StronglySorted frequency_ge rows /\
      (Z.of_nat (List.length rows) <= n)%Z
  | Raise e =>
      ((n < 0)%Z /\ e = invalid_row_count_in_limit_clause) \/
      ((0 < n)%Z /\
       exists r, In r learnings /\ model_type r = target /\
                 unreadable int4in r e)
  end.
Proof.
  unfold get_model_best_keywords.
  destruct (limit_cases n
              match keyword_rows int4in learnings target with
              | Ok rows =>
                  Ok (order_by frequency (desc_nulls_first Z.leb)
                        tiebreak rows)
              | Raise e => Raise e
              end)
    as [[Hn ->]|[[Hn ->]|[Hn ->]]].
  - now left.
  - split; [constructor|simpl; lia].
  - destruct (keyword_rows int4in learnings target) as [rows|e] eqn:Hrows.
    + split; [|rewrite length_firstn; lia].
      apply firstn_sorted.
      eapply sorted_weaken;
        [|apply order_by_sorted;
          [apply desc_nulls_first_total|apply desc_nulls_first_trans]].
      intros a b _ _. apply frequency_order.
    + right. split; [exact Hn|]. now apply keyword_rows_raise.
Qed.


End WithExecutor.

Import Examples.

(** The two most frequent keywords of "gemini". *)
Example best_two_keywords :
  get_model_best_keywords int4in scan_order learnings "gemini" 2
  = Ok [("full body"%string, Some 100%Z); ("bokeh"%string, Some 90%Z)].
Proof.
  reflexivity.
Qed.

(** A stored count of 3000000000 is beyond the range of INT: the call
    raises. *)
Example count_out_of_range :
  get_model_best_keywords int4in scan_order learnings "midjourney"
    default_keyword_limit
  = Raise numeric_value_out_of_range.
Proof.
  reflexivity.
Qed.

(** C5: two keywords with the same count come out in storage order, "b"
    before "aa", not in lexicographic order, when the executor leaves
    ties in scan order. *)
Lemma keyword_tie_not_lexicographic :
  exists rows,
    get_model_best_keywords int4in scan_order learnings "imagen"
      default_keyword_limit = Ok rows /\
    ~ ties_by_keyword rows.
Proof.
  exists [("b"%string, Some 1%Z); ("aa"%string, Some 1%Z)].
  split; [reflexivity|].
  intros H.
  assert (Hlt : (1 < 0)%nat).
  { apply (H 1%nat 0%nat ("aa"%string, Some 1%Z) ("b"%string, Some 1%Z));
      reflexivity. }
  lia.
Qed.


End KeywordsTheorems.

(** ** Writing [dop_prompt_records] *)

Module StoreTheorems.
Import Sql dop_prompt_records Store.

(** C6: an INSERT whose embedding does not have 768 components, or whose
    mode is neither 'character' nor 'scene', fails with a validation
    error and leaves the table, hence its number of rows, as it was. *)
Theorem insert_rejects_malformed records new_id now d :
  (exists v, d_embedding d = Some v /\ List.length v <> embedding_dim) \/
  (d_mode d <> "character"%string /\ d_mode d <> "scene"%string) ->
  exists e,
    insert records new_id now d = (Raise e, records) /\ ValidationError e.
Proof.
  unfold insert, to_vector768.
  intros [(v & Hv & Hlen)|[Hc Hs]].
  - rewrite Hv. apply Nat.eqb_neq in Hlen. rewrite Hlen.
    exists data_exception. split; [reflexivity|now left].
  - assert (Hmode : mode_check (d_mode d) = false).
    { unfold mode_check.
      apply String.eqb_neq in Hc. apply String.eqb_neq in Hs.
      now rewrite Hc, Hs. }
    destruct (d_embedding d) as [v|];
      [destruct (Nat.eqb (List.length v) embedding_dim)|].
    + exists check_violation. rewrite Hmode.
      split; [reflexivity|now right].
    + (* the coercion of the embedding fails first *)
      exists data_exception. split; [reflexivity|now left].
    + exists check_violation. rewrite Hmode.
      split; [reflexivity|now right].
Qed.

(** The scenario of the specification: a 512-component embedding. *)
Lemma insert_512_witness :
  exists e,
    insert Examples.mixed_records 7%N 0%Z
      (Examples.draft (Some (repeat 0 512)) "scene" None)
    = (Raise e, Examples.mixed_records) /\ ValidationError e.
Proof.
  apply (insert_rejects_malformed Examples.mixed_records 7%N 0%Z
           (Examples.draft (Some (repeat 0 512)) "scene" None)).
  left. exists (repeat 0 512). split; [reflexivity|].
  vm_compute. discriminate.
Defined.

(** A mode outside the enumeration is a check violation; a well-formed
    draft is appended with the defaults of the columns it leaves out. *)
Example insert_unknown_mode :
  insert Examples.mixed_records 7%N 0%Z
    (Examples.draft (Some (repeat 0 768)) "product" None)
  = (Raise check_violation, Examples.mixed_records).
Proof.
  reflexivity.
Qed.

Example insert_well_formed :
  let d := Examples.draft (Some (repeat 0 768)) "scene" None in
  let '(outcome, records') := insert Examples.mixed_records 7%N 0%Z d in
  outcome = Ok 7%N /\
  List.length records' = S (List.length Examples.mixed_records) /\
  option_map was_approved (nth_error records' 6) = Some (Some false) /\
  option_map aspect_ratio (nth_error records' 6)
  = Some (Some "16:9"%string).
Proof.
  vm_compute. repeat split.
Qed.

(** C9: the table accepts a quality score of 1.5, which the comment of
    the column [quality_score] ("0.0-1.0 overall quality") rules out: the
    INSERT succeeds and the score is stored as given. The same holds for
    a score that is NaN. *)
Theorem out_of_range_score_is_stored :
  Forall scores_in_range [] /\
  (exists records',
     insert [] 1%N 0%Z
       (Examples.draft (Some (repeat 0 768)) "scene"
          (Some (finite (3 # 2))))
     = (Ok 1%N, records') /\
     map quality_score records' = [Some (finite (3 # 2))] /\
     ~ Forall scores_in_range records') /\
  (exists records',
     insert [] 1%N 0%Z
       (Examples.draft (Some (repeat 0 768)) "scene" (Some NaN))
     = (Ok 1%N, records') /\
     ~ Forall scores_in_range records').
Proof.
  split; [constructor|]. split.
  - exists [new_row 1%N 0%Z
              (Examples.draft (Some (repeat 0 768)) "scene"
                 (Some (finite (3 # 2))))
              (Some (repeat 0 768))].
    split; [reflexivity|]. split; [reflexivity|].
    intros H. inversion H as [|r l Hr Hl]; subst.
    destruct Hr as ((_ & Hle) & _).
    unfold Qle in Hle. simpl in Hle. lia.
  - exists [new_row 1%N 0%Z
              (Examples.draft (Some (repeat 0 768)) "scene" (Some NaN))
              (Some (repeat 0 768))].
    split; [reflexivity|].
    intros H. inversion H as [|r l Hr Hl]; subst.
    destruct Hr as (Hq & _). exact Hq.
Qed.

End StoreTheorems.

(** ** The model-learning aggregator *)

Module AggregatorTheorems.
Import dop_prompt_records Aggregator.

Lemma get_upsert model f s model' :
  get (upsert model f s) model' =
  if (model =? model')%string then f (get s model) else get s model'.
Proof.
  induction s as [|[k m] s IH]; simpl.
  - reflexivity.
  - destruct (String.eqb_spec k model) as [->|Hk]; simpl.
    + now destruct (String.eqb_spec model model').
    + rewrite IH.
      destruct (String.eqb_spec k model') as [->|Hk'];
        destruct (String.eqb_spec model model'); congruence.
Qed.

Lemma apply_event_total s e model :
  total_generations (get (apply_event s e) model) =
  (total_generations (get s model) + created_delta e model)%Z.
Proof.
  destruct e as [r|r]; simpl;
    unfold on_record_created, on_record_approved;
    try destruct (counted_score r); try lia;
    rewrite get_upsert;
    destruct (String.eqb_spec (model_type r) model) as [->|Hne];
    simpl; lia.
Qed.

Lemma apply_event_approved s e model :
  approved_count (get (apply_event s e) model) =
  (approved_count (get s model) + approved_delta e model)%Z.
Proof.
  destruct e as [r|r]; simpl;
    unfold on_record_created, on_record_approved;
    try destruct (counted_score r); try lia;
    rewrite get_upsert;
    destruct (String.eqb_spec (model_type r) model) as [->|Hne];
    simpl; lia.
Qed.

Lemma deltas_nonneg e model :
  (0 <= created_delta e model)%Z /\ (0 <= approved_delta e model)%Z.
Proof.
  destruct e as [r|r]; simpl; try destruct (counted_score r);
    destruct (model_type r =? model)%string; lia.
Qed.

Lemma run_monotone events s model :
  (total_generations (get s model)
   <= total_generations (get (run events s) model))%Z /\
  (approved_count (get s model)
   <= approved_count (get (run events s) model))%Z.
Proof.
  revert s. induction events as [|e es IH]; intros s; simpl; [lia|].
  destruct (IH (apply_event s e)) as [Ht Ha].
  rewrite apply_event_total in Ht. rewrite apply_event_approved in Ha.
  destruct (deltas_nonneg e model). lia.
Qed.

Lemma pending_of_remove_one x pending model :
  existsb (same_record x) pending = true ->
  pending_of model (remove_one x pending) =
  (pending_of model pending - if (snd x =? model)%string then 1 else 0)%Z.
Proof.
  unfold pending_of.
  induction pending as [|y l IH]; simpl; [discriminate|].
  destruct (same_record x y) eqn:E; simpl.
  - intros _. unfold same_record in E. apply andb_true_iff in E.
    destruct E as [_ E]. apply String.eqb_eq in E. rewrite <- E.
    destruct (snd x =? model)%string; cbn [List.length]; lia.
  - intros H. specialize (IH H).
    destruct (snd y =? model)%string; cbn [List.length]; lia.
Qed.

Lemma pending_of_nonneg model pending : (0 <= pending_of model pending)%Z.
Proof.
  unfold pending_of. lia.
Qed.

Lemma run_balanced events : forall s pending,
  follows_protocol pending events = true ->
  balanced s pending ->
  exists pending', balanced (run events s) pending'.
Proof.
  induction events as [|[r|r] es IH]; intros s pending Hp Hb; simpl in *.
  - now exists pending.
  - apply (IH _ _ Hp). intros model.
    rewrite (apply_event_total s (record_created r)),
            (apply_event_approved s (record_created r)).
    specialize (Hb model).
    unfold pending_of, created_delta, approved_delta in *. cbn [filter snd].
    destruct (model_type r =? model)%string; cbn [List.length]; lia.
  - apply andb_true_iff in Hp. destruct Hp as [Hin Hp].
    apply (IH _ _ Hp). intros model.
    rewrite (apply_event_total s (record_approved r)),
            (apply_event_approved s (record_approved r)),
            (pending_of_remove_one _ _ _ Hin).
    unfold created_delta, approved_delta. cbn [snd].
    specialize (Hb model).
    destruct (counted_score r); destruct (model_type r =? model)%string;
      lia.
Qed.

(** C3: for every model type, after any sequence of [on_record_created] /
    [on_record_approved] events that follows the calling convention of
    the two entry points ([on_record_approved] once per record, when a
    record created earlier turns approved),
    [approved_count <= total_generations]; and over any sequence of events
    at all neither counter ever decreases. *)
Theorem counters_invariant :
  (forall events model,
     follows_protocol [] events = true ->
     (approved_count (get (run events []) model)
      <= total_generations (get (run events []) model))%Z) /\
  (forall before after model,
     (total_generations (get (run before []) model)
      <= total_generations (get (run (before ++ after) []) model))%Z /\
     (approved_count (get (run before []) model)
      <= approved_count (get (run (before ++ after) []) model))%Z).
Proof.
  split.
  - intros events model Hp.
    destruct (run_balanced events [] [] Hp) as (pending & Hb).
    + intros m. simpl. unfold pending_of. simpl. lia.
    + specialize (Hb model).
      pose proof (pending_of_nonneg model pending). lia.
  - intros before after model. unfold run. rewrite fold_left_app.
    apply run_monotone.
Qed.

(** Two records created, the first one approved. *)
Lemma counters_invariant_witness :
  (approved_count
     (get (run [record_created Examples.early;
                record_created Examples.late;
                record_approved Examples.early] []) "imagen")
   <= total_generations
        (get (run [record_created Examples.early;
                   record_created Examples.late;
                   record_approved Examples.early] []) "imagen"))%Z.
Proof.
  apply (proj1 counters_invariant
           [record_created Examples.early;
            record_created Examples.late;
            record_approved Examples.early] "imagen"%string).
  reflexivity.
Defined.

(** The scenario of the spec: five records of "imagen" with the scores
    0.9, 0.8, 0.75, 0.6 and 0.95, created and then approved. All five
    count as generated, the four with a score of at least 0.7 as approved,
    and the average is that of these four, 0.85. *)
Example five_records_average :
  let events :=
    map record_created Examples.five_records ++
    map record_approved Examples.five_records in
  let imagen := get (run events []) "imagen" in
  follows_protocol [] events = true /\
  total_generations imagen = 5%Z /\
  approved_count imagen = 4%Z /\
  avg_quality_score imagen == 85 # 100.
Proof.
  vm_compute. repeat split; intros; discriminate.
Qed.

End AggregatorTheorems.

(** ** The history of the image editor *)

Module EditorTheorems.
Import Editor.

Lemma length_slice_last_50 {A : Type} (a : list A) :
  List.length (slice_last 50 a) = Nat.min 50 (List.length a).
Proof.
  unfold slice_last. rewrite length_skipn. lia.
Qed.

Lemma addToHistory_length img st :
  List.length (history (addToHistory img st)) =
  Nat.min 50 (S (List.length (history st))).
Proof.
  unfold addToHistory. cbn [history].
  rewrite length_slice_last_50, length_app. cbn [List.length].
  f_equal. lia.
Qed.

(** No update of the hook makes a history of 50 entries or more longer. *)
Lemma step_bounded st a :
  (List.length (history (step st a))
   <= Nat.max 50 (List.length (history st)))%nat.
Proof.
  destruct a; cbn [step];
    unfold openEditor, closeEditor, clearHistory, onEditorSave,
      setLoading, failLoading, closeEditor; cbn [history];
    try lia.
  - rewrite addToHistory_length. lia.
  - cbn [List.length]. lia.
  - destruct (currentImage st); [|lia].
    rewrite addToHistory_length. lia.
Qed.

Lemma run_bounded actions : forall st,
  (List.length (history (run actions st))
   <= Nat.max 50 (List.length (history st)))%nat.
Proof.
  induction actions as [|a actions IH]; intros st.
  - unfold run. cbn [fold_left]. lia.
  - change (run (a :: actions) st) with (run actions (step st a)).
    specialize (IH (step st a)). pose proof (step_bounded st a). lia.
Qed.

(** C10: after any sequence of updates of the editor state ([addToHistory],
    [clearHistory], [onEditorSave] and all the others) the history holds
    at most 50 entries (from any state at all it never grows past 50); and
    [addToHistory] keeps the last 50 entries of the history extended with
    the new image, dropping the oldest ones. *)
Theorem history_at_most_50 :
  (forall actions,
     (List.length (history (run actions initial_state)) <= 50)%nat) /\
  (forall st actions,
     (List.length (history (run actions st))
      <= Nat.max 50 (List.length (history st)))%nat) /\
  (forall img st, exists dropped,
     history st ++ [img] = dropped ++ history (addToHistory img st) /\
     List.length (history (addToHistory img st)) =
     Nat.min 50 (S (List.length (history st)))).
Proof.
  split; [|split].
  - intros actions. pose proof (run_bounded actions initial_state) as H.
    cbn [initial_state history List.length] in H. lia.
  - intros st actions. apply run_bounded.
  - intros img st.
    exists (firstn (List.length (history st ++ [img]) - 50)
              (history st ++ [img])).
    split; [|apply addToHistory_length].
    unfold addToHistory, slice_last. cbn [history].
    now rewrite firstn_skipn.
Qed.

(** Adding 51 pictures one after the other leaves the last 50: the first
    one is gone. *)
Example fifty_one_pictures :
  history (run (map AddToHistory (Examples.pictures 1 51)) initial_state)
  = Examples.pictures 2 50.
Proof.
  vm_compute. reflexivity.
Qed.

End EditorTheorems.

(* ================================================================== *)
(** * Part III: further properties of the code *)
(* ================================================================== *)

(** ** The first rows of a sorted list *)

Module TopFacts.
Import Sql SqlFacts.

Lemma In_skipn_In {A : Type} (n : nat) (l : list A) x :
  In x (skipn n l) -> In x l.
Proof.
  intros H. rewrite <- (firstn_skipn n l). apply in_or_app. now right.
Qed.

(** In a sorted list every one of the first [n] elements comes before
    every element that is left. *)
Lemma sorted_firstn_skipn {A : Type} (R : A -> A -> Prop) (n : nat) l :
  StronglySorted R l ->
  forall a b, In a (firstn n l) -> In b (skipn n l) -> R a b.
Proof.
  intros H. revert n.
  induction H as [|x l Hs IH Hx]; intros [|n] a b Ha Hb; simpl in *;
    try contradiction.
  destruct Ha as [<-|Ha].
  - rewrite Forall_forall in Hx. apply Hx. eapply In_skipn_In; eauto.
  - eapply IH; eauto.
Qed.

(** An element of a list is among its first [n] elements, or the list has
    more than [n] elements and it is in the rest. *)
Lemma In_firstn_or_rest {A : Type} (n : nat) (l : list A) x :
  In x l ->
  In x (firstn n l) \/ (In x (skipn n l) /\ List.length (firstn n l) = n).
Proof.
  intros H. rewrite <- (firstn_skipn n l) in H.
  apply in_app_or in H. destruct H as [H|H]; [now left|right].
  split; [exact H|].
  rewrite length_firstn.
  destruct (Nat.le_gt_cases (List.length l) n) as [Hle|Hgt]; [|lia].
  rewrite (skipn_all2 l Hle) in H. destruct H.
Qed.

End TopFacts.

(** ** [search_similar_prompts], continued *)

Module SearchMore.
Import Sql SqlFacts TopFacts dop_prompt_records Search Properties.
Import SearchFacts Store.

Section WithExecutor.
Variable float8 : rounding.
Variable cosine_distance : vector -> vector -> float.
Variable tiebreak : row -> nat.

(** X1: with a sequential scan, a count that is not negative, and a query
    that has the dimension of the stored embeddings, the call does not
    raise and the rows returned are the nearest ones: an eligible record
    is returned, or exactly [match_count] rows are returned and each of
    them comes before that record in descending order of similarity (a
    similarity that is NaN last). *)
Theorem search_returns_the_nearest records q mmt mm k thr :
  (0 <= k)%Z ->
  (forall r e, In r records -> embedding r = Some e ->
               List.length e = List.length q) ->
  exists rows,
    search_similar_prompts float8 cosine_distance sequential tiebreak records
      q mmt mm k thr = Ok rows /\
    forall r, In r records -> eligible float8 cosine_distance q mmt mm thr r ->
      In (select float8 cosine_distance q r) rows \/
      (Z.of_nat (List.length rows) = k /\
       forall s, In s rows ->
                 similarity_ge s (select float8 cosine_distance q r)).
Proof.
  intros Hk Hdim. unfold search_similar_prompts.
  pose proof (matching_rows_cases float8 cosine_distance sequential tiebreak
                records q mmt mm thr) as Hcases.
  destruct (matching_rows float8 cosine_distance sequential tiebreak records
              q mmt mm thr) as [L|err].
  2:{ exfalso.
      destruct Hcases as (_ & [(probed & H & _)|(r & e & Hr & He & Hne)]).
      - discriminate.
      - apply Hne. now apply (Hdim r). }
  destruct Hcases as (HL & Hin).
  destruct (limit_cases k (Ok (map (select float8 cosine_distance q) L)))
    as [[Hneg _]|[[Hzero ->]|[Hpos ->]]]; [lia| |].
  - exists []. split; [reflexivity|]. intros r _ _. right.
    split; [simpl; lia|intros s []].
  - eexists. split; [reflexivity|].
    intros r Hr He.
    assert (HrL : In r L) by (apply Hin; simpl; auto).
    rewrite firstn_map.
    destruct (In_firstn_or_rest (Z.to_nat k) L r HrL) as [H|[H Hlen]].
    + left. now apply in_map.
    + right. split.
      * rewrite length_map, Hlen. lia.
      * intros s Hs. apply in_map_iff in Hs. destruct Hs as (a & <- & Ha).
        assert (HaL : In a L) by (eapply In_firstn; eauto).
        destruct (proj1 (Hin a) HaL) as (_ & _ & Hea).
        apply (distance_key_of_eligible float8 cosine_distance) in Hea.
        apply (distance_key_of_eligible float8 cosine_distance) in He.
        destruct Hea as (ea & _ & Hka), He as (er & _ & Hkr).
        eapply distance_order_similarity; eauto.
        eapply sorted_firstn_skipn; eauto.
        rewrite HL. apply order_by_sorted.
        -- apply asc_nulls_last_total, float_le_total.
        -- apply asc_nulls_last_trans, float_le_trans.
Qed.

Variable plan : scan.

(** A record inserted without approval does not pass the WHERE clause,
    and the operator is not called on it. *)
Lemma unapproved_row_not_selected new_id now d e q mmt mm thr :
  d_was_approved d <> Some true ->
  where_clause float8 cosine_distance q mmt mm thr (new_row new_id now d e)
  = Ok false.
Proof.
  intros Hd. unfold where_clause.
  destruct (holds (plain_conditions mmt mm (new_row new_id now d e)))
    eqn:E; [|reflexivity].
  exfalso. apply plain_conditions_iff in E. destruct E as (Ha & _).
  simpl in Ha. destruct (d_was_approved d) as [[|]|]; simpl in Ha;
    congruence.
Qed.

(** X2: an INSERT that does not set [was_approved] to true changes the
    result of no search, whether the INSERT succeeds or raises. *)
Theorem unapproved_insert_is_invisible records new_id now d q mmt mm k thr :
  d_was_approved d <> Some true ->
  search_similar_prompts float8 cosine_distance plan tiebreak
    (snd (insert records new_id now d)) q mmt mm k thr
  = search_similar_prompts float8 cosine_distance plan tiebreak records
      q mmt mm k thr.
Proof.
  intros Hd. unfold insert.
  destruct (to_vector768 (d_embedding d)) as [e|err]; [|reflexivity].
  destruct (negb (mode_check (d_mode d))); [reflexivity|].
  destruct (existsb _ records); [reflexivity|].
  cbn [snd]. unfold search_similar_prompts, matching_rows.
  rewrite filter_app. cbn [filter].
  destruct (visited plan (new_row new_id now d e)).
  - rewrite select_where_app; [reflexivity|].
    now apply unapproved_row_not_selected.
  - now rewrite app_nil_r.
Qed.

End WithExecutor.

Import Examples.

Lemma search_returns_the_nearest_witness :
  exists rows,
    search_similar_prompts unrounded unit_cosine_distance sequential scan_order
      tied_records axis1 None None 1 (finite 0) = Ok rows /\
    forall r, In r tied_records ->
      eligible unrounded unit_cosine_distance axis1 None None (finite 0) r ->
      In (select unrounded unit_cosine_distance axis1 r) rows \/
      (Z.of_nat (List.length rows) = 1%Z /\
       forall s, In s rows ->
         similarity_ge s (select unrounded unit_cosine_distance axis1 r)).
Proof.
  apply (search_returns_the_nearest unrounded unit_cosine_distance scan_order
           tied_records axis1 None None 1 (finite 0)).
  - lia.
  - intros r e [<-|[<-|[]]] He; inversion He; subst; reflexivity.
Defined.

Lemma unapproved_insert_is_invisible_witness :
  search_similar_prompts unrounded unit_cosine_distance sequential scan_order
    (snd (insert mixed_records 7%N 0%Z
            (draft (Some axis1) "scene" (Some (finite 1)))))
    axis1 None None 5 (finite 0)
  = search_similar_prompts unrounded unit_cosine_distance sequential scan_order
      mixed_records axis1 None None 5 (finite 0).
Proof.
  apply (unapproved_insert_is_invisible unrounded unit_cosine_distance
           scan_order sequential mixed_records 7%N 0%Z
           (draft (Some axis1) "scene" (Some (finite 1)))
           axis1 None None 5 (finite 0)).
  vm_compute. discriminate.
Defined.

End SearchMore.

(** ** [get_model_best_keywords], continued *)

Module KeywordsMore.
Import Sql SqlFacts TopFacts dop_model_learnings Keywords Properties.
Import KeywordsFacts.

Section WithExecutor.
Variable int4in : string -> result Z.
Variable tiebreak : keyword_row -> nat.

Lemma In_keyword_frequencies o keys rows k f :
  keyword_frequencies int4in o keys = Ok rows ->
  In (k, f) rows <->
  In k keys /\ to_int int4in (jsonb_get_text o k) = Ok f.
Proof.
  revert rows. induction keys as [|k' keys IH]; simpl; intros rows.
  - intros H. inversion H. simpl. tauto.
  - destruct (to_int int4in (jsonb_get_text o k')) as [f'|] eqn:Hk';
      [|discriminate].
    destruct (keyword_frequencies int4in o keys) as [rest|];
      [|discriminate].
    intros H. inversion H; subst rows. simpl.
    rewrite (IH rest eq_refl). split.
    + intros [Heq|[Hin Hf]]; [|tauto].
      inversion Heq; subst. auto.
    + intros [[->|Hin] Hf]; [left|right; tauto].
      rewrite Hk' in Hf. now inversion Hf.
Qed.

(** The rows of the inner query of one table row. *)
Local Notation "'row_holds' r k f" :=
  (exists members,
     common_keywords r = Some (jsonb_object members) /\
     In k%string (map fst members) /\
     to_int int4in (jsonb_get_text (jsonb_object members) k) = Ok f)
  (at level 10, r at level 9, k at level 9, f at level 9).

Lemma In_keywords_of_row r rows k f :
  keywords_of_row int4in r = Ok rows ->
  In (k, f) rows <-> row_holds r k f.
Proof.
  unfold keywords_of_row.
  destruct (common_keywords r) as [[members|]|]; simpl.
  - intros H. rewrite (In_keyword_frequencies _ _ _ k f H). split.
    + intros [Hk Hf]. exists members. auto.
    + intros (members' & Heq & Hk & Hf). inversion Heq; subst. auto.
  - discriminate.
  - intros H. inversion H. simpl. split; [tauto|].
    intros (members & Heq & _). discriminate.
Qed.

Lemma In_keywords_of_rows table_rows rows k f :
  keywords_of_rows int4in table_rows = Ok rows ->
  In (k, f) rows <-> exists r, In r table_rows /\ row_holds r k f.
Proof.
  revert rows. induction table_rows as [|r table_rows IH]; simpl;
    intros rows.
  - intros H. inversion H. simpl. split; [tauto|]. intros (r & [] & _).
  - destruct (keywords_of_row int4in r) as [first|] eqn:Hr; [|discriminate].
    destruct (keywords_of_rows int4in table_rows) as [rest|];
      [|discriminate].
    intros H. inversion H; subst rows.
    rewrite in_app_iff, (In_keywords_of_row r first k f Hr),
      (IH rest eq_refl).
    split.
    + intros [H1|(r' & Hr' & H2)]; eauto.
    + intros (r' & [<-|Hr'] & H2); eauto.
Qed.

(** The rows of the inner query: one per key of the [common_keywords]
    object of a row of the model, with the count stored under the key. *)
Lemma In_keyword_rows learnings target rows k f :
  keyword_rows int4in learnings target = Ok rows ->
  In (k, f) rows <->
  exists r, In r learnings /\ model_type r = target /\ row_holds r k f.
Proof.
  unfold keyword_rows. intros H.
  rewrite (In_keywords_of_rows _ _ k f H). split.
  - intros (r & Hr & Hh). apply filter_In in Hr. destruct Hr as [Hr Hm].
    apply String.eqb_eq in Hm. eauto.
  - intros (r & Hr & Hm & Hh). exists r. split; [|exact Hh].
    apply filter_In. split; [exact Hr|]. now apply String.eqb_eq.
Qed.

(** X3: for a model type that has no row in [dop_model_learnings], or
    whose [common_keywords] is NULL, and a limit that is not negative,
    [get_model_best_keywords] returns no row and does not raise. *)
Theorem unknown_model_has_no_keywords learnings target n :
  (0 <= n)%Z ->
  (forall r, In r learnings -> model_type r = target ->
             common_keywords r = None) ->
  get_model_best_keywords int4in tiebreak learnings target n = Ok [].
Proof.
  intros Hn Hnone. unfold get_model_best_keywords.
  assert (Hempty : keyword_rows int4in learnings target = Ok []).
  { unfold keyword_rows.
    assert (H : forall r,
              In r (filter (fun r => (model_type r =? target)%string)
                      learnings) ->
              common_keywords r = None).
    { intros r Hr. apply filter_In in Hr. destruct Hr as [Hr Hm].
      apply String.eqb_eq in Hm. now apply Hnone. }
    induction (filter (fun r => (model_type r =? target)%string) learnings)
      as [|r l IH]; [reflexivity|].
    simpl. unfold keywords_of_row at 1.
    rewrite (H r) by now left.
    rewrite IH; [reflexivity|]. intros r' Hr'. apply H. now right. }
  rewrite Hempty.
  destruct (limit_cases n
              (Ok (order_by frequency (desc_nulls_first Z.leb) tiebreak [])))
    as [[Hneg _]|[[_ ->]|[_ ->]]]; [lia|reflexivity|].
  simpl. now rewrite firstn_nil.
Qed.

(** X4: for a limit that is not negative, when every [common_keywords]
    of the model type is an object whose counts the cast to INT accepts,
    the call does not raise; every row returned is a key of such an
    object with the count stored under it, and the rows returned are the
    most frequent ones: a stored keyword is returned, or exactly
    [keyword_limit] rows are returned and each of them comes before it in
    descending order of frequency (a NULL frequency first). *)
Theorem best_keywords_are_the_most_frequent learnings target n :
  (0 <= n)%Z ->
  (forall r e, In r learnings -> model_type r = target ->
               ~ unreadable int4in r e) ->
  exists rows,
    get_model_best_keywords int4in tiebreak learnings target n = Ok rows /\
    (forall k f, In (k, f) rows ->
       exists r members,
         In r learnings /\ model_type r = target /\
         common_keywords r = Some (jsonb_object members) /\
         In k (map fst members) /\
         to_int int4in (jsonb_get_text (jsonb_object members) k) = Ok f) /\
    (forall r members k f,
       In r learnings -> model_type r = target ->
       common_keywords r = Some (jsonb_object members) ->
       In k (map fst members) ->
       to_int int4in (jsonb_get_text (jsonb_object members) k) = Ok f ->
       In (k, f) rows \/
       (Z.of_nat (List.length rows) = n /\
        forall s, In s rows -> frequency_ge s (k, f))).
Proof.
  intros Hn Hreadable. unfold get_model_best_keywords.
  destruct (keyword_rows int4in learnings target) as [stored|e] eqn:Hstored.
  2:{ exfalso. apply keyword_rows_raise in Hstored.
      destruct Hstored as (r & Hr & Hm & Hbad).
      exact (Hreadable r e Hr Hm Hbad). }
  set (L := order_by frequency (desc_nulls_first Z.leb) tiebreak stored).
  destruct (limit_cases n (Ok L)) as [[Hneg _]|[[Hzero ->]|[Hpos ->]]];
    [lia| |].
  - exists []. split; [reflexivity|]. split; [intros k f []|].
    intros r members k f _ _ _ _ _. right.
    split; [simpl; lia|intros s []].
  - eexists. split; [reflexivity|]. split.
    + intros k f Hin. apply In_firstn, In_order_by in Hin.
      apply (In_keyword_rows _ _ _ k f Hstored) in Hin.
      destruct Hin as (r & Hr & Hm & (members & Ho & Hk & Hf)).
      exists r, members. auto.
    + intros r members k f Hr Hm Ho Hk Hf.
      assert (HL : In (k, f) L).
      { apply In_order_by. apply (In_keyword_rows _ _ _ k f Hstored).
        exists r. split; [exact Hr|]. split; [exact Hm|].
        exists members. auto. }
      destruct (In_firstn_or_rest (Z.to_nat n) L _ HL) as [H|[H Hlen]];
        [now left|right].
      split; [rewrite Hlen; lia|].
      intros s Hs. apply frequency_order.
      eapply sorted_firstn_skipn; eauto.
      apply order_by_sorted;
        [apply desc_nulls_first_total|apply desc_nulls_first_trans].
Qed.

End WithExecutor.

Import Examples.

Lemma unknown_model_has_no_keywords_witness :
  get_model_best_keywords int4in scan_order learnings "dall-e" 20 = Ok [].
Proof.
  apply (unknown_model_has_no_keywords int4in scan_order learnings
           "dall-e" 20).
  - lia.
  - intros r [<-|[<-|[<-|[]]]]; discriminate.
Defined.

Lemma best_keywords_are_the_most_frequent_witness :
  exists rows,
    get_model_best_keywords int4in scan_order learnings "gemini" 2
    = Ok rows /\
    (forall k f, In (k, f) rows ->
       exists r members,
         In r learnings /\ model_type r = "gemini"%string /\
         common_keywords r = Some (jsonb_object members) /\
         In k (map fst members) /\
         to_int int4in (jsonb_get_text (jsonb_object members) k) = Ok f) /\
    (forall r members k f,
       In r learnings -> model_type r = "gemini"%string ->
       common_keywords r = Some (jsonb_object members) ->
       In k (map fst members) ->
       to_int int4in (jsonb_get_text (jsonb_object members) k) = Ok f ->
       In (k, f) rows \/
       (Z.of_nat (List.length rows) = 2%Z /\
        forall s, In s rows -> frequency_ge s (k, f))).
Proof.
  apply (best_keywords_are_the_most_frequent int4in scan_order learnings
           "gemini" 2).
  - lia.
  - intros r e [<-|[<-|[<-|[]]]] Hm; try discriminate Hm.
    intros [[H _]|(members & k & text & Ho & Hin & Hcast)];
      [discriminate|].
    inversion Ho; subst members.
    destruct Hin as [H|[H|[H|[]]]]; inversion H; subst;
      vm_compute in Hcast; discriminate.
Defined.

End KeywordsMore.

(** ** Writing [dop_prompt_records], continued *)

Module StoreMore.
Import Sql dop_prompt_records Store Constraints.

Lemma existsb_id_false records new_id :
  existsb (fun r => N.eqb (id r) new_id) records = false <->
  forall r, In r records -> id r <> new_id.
Proof.
  split.
  - intros H r Hr Heq.
    assert (Ht : existsb (fun r => N.eqb (id r) new_id) records = true).
    { apply existsb_exists. exists r. split; [exact Hr|].
      now apply N.eqb_eq. }
    congruence.
  - intros H. destruct (existsb _ records) eqn:E; [|reflexivity].
    apply existsb_exists in E. destruct E as (r & Hr & Heq).
    apply N.eqb_eq in Heq. elim (H r Hr Heq).
Qed.

Lemma to_vector768_ok e v :
  to_vector768 e = Ok v ->
  v = e /\ match v with
           | Some c => List.length c = embedding_dim
           | None => True
           end.
Proof.
  unfold to_vector768. destruct e as [c|].
  - destruct (Nat.eqb_spec (List.length c) embedding_dim) as [Hlen|Hlen];
      [|discriminate].
    intros H. inversion H; subst. auto.
  - intros H. inversion H; subst. auto.
Qed.

(** X5: an INSERT keeps what the table declares: the ids stay distinct,
    every mode is 'character' or 'scene', and every stored embedding has
    768 components; whether the statement succeeds or raises. *)
Theorem insert_keeps_constraints records new_id now d :
  satisfies_constraints records ->
  satisfies_constraints (snd (insert records new_id now d)).
Proof.
  intros [Hid Hrows]. unfold insert.
  destruct (to_vector768 (d_embedding d)) as [e|err] eqn:Ev;
    [|now split].
  destruct (mode_check (d_mode d)) eqn:Em; cbn [negb]; [|now split].
  destruct (existsb _ records) eqn:Ex; [now split|].
  cbn [snd]. split.
  - rewrite map_app. apply NoDup_app; [exact Hid|repeat constructor; auto|].
    intros a Ha [<-|[]]. cbn [id new_row] in Ha.
    apply in_map_iff in Ha. destruct Ha as (r & Hr & Hin).
    rewrite existsb_id_false in Ex. elim (Ex r Hin Hr).
  - apply Forall_app. split; [exact Hrows|].
    constructor; [|constructor].
    split; [exact Em|].
    apply to_vector768_ok in Ev. destruct Ev as [_ Hlen]. exact Hlen.
Qed.

Ltac distinct_ids :=
  repeat (constructor; [simpl; intuition discriminate|]); constructor.

Lemma mixed_records_satisfy_constraints :
  satisfies_constraints Examples.mixed_records.
Proof.
  split.
  - unfold Examples.mixed_records. cbn [map]. distinct_ids.
  - repeat constructor.
Qed.

Lemma insert_keeps_constraints_witness :
  satisfies_constraints
    (snd (insert Examples.mixed_records 7%N 0%Z
            (Examples.draft (Some Examples.axis2) "character" None))).
Proof.
  apply (insert_keeps_constraints Examples.mixed_records 7%N 0%Z
           (Examples.draft (Some Examples.axis2) "character" None)).
  exact mixed_records_satisfy_constraints.
Defined.

End StoreMore.

(** ** The signup trigger and the policies *)

Module PolicyTheorems.
Import Sql SqlFacts profiles Signup Policies.

Lemma coalesce_last_default {A : Type} (args : list (option A)) (d : A) :
  exists a, coalesce (args ++ [Some d]) = Some a.
Proof.
  induction args as [|[a|] args IH]; simpl; eauto.
Qed.

(** X7: when no profile has the id of the new user, [handle_new_user]
    adds one profile and leaves the others as they are; the new profile
    has the user's id, an email and a full name that are not NULL, the
    tier 'free', and its email is the one of [auth.users] whenever that
    one is not NULL. *)
Theorem signup_creates_complete_profile all_profiles new now :
  (forall p, In p all_profiles -> id p <> au_id new) ->
  exists p,
    handle_new_user all_profiles new now = (Ok new, all_profiles ++ [p]) /\
    id p = au_id new /\
    (exists e, email p = Some e) /\
    (exists n, full_name p = Some n) /\
    subscription_tier p = Some "free"%string /\
    (forall e, au_email new = Some e -> email p = Some e).
Proof.
  intros Hfresh. exists (new_profile new now).
  unfold handle_new_user. cbv zeta.
  change (negb (subscription_tier_check
                  (subscription_tier (new_profile new now)))) with false.
  change (id (new_profile new now)) with (au_id new).
  cbv iota.
  assert (Hex : existsb (fun q => N.eqb (id q) (au_id new)) all_profiles
                = false).
  { destruct (existsb _ all_profiles) eqn:E; [|reflexivity].
    apply existsb_exists in E. destruct E as (q & Hq & Heq).
    apply N.eqb_eq in Heq. elim (Hfresh q Hq Heq). }
  rewrite Hex. split; [reflexivity|]. split; [reflexivity|].
  split; [|split; [|split]].
  - apply (coalesce_last_default
             [au_email new; meta_text (raw_user_meta_data new) "email"]).
  - apply (coalesce_last_default
             [meta_text (raw_user_meta_data new) "full_name"]).
  - reflexivity.
  - intros e He. unfold new_profile. cbn [email]. rewrite He. reflexivity.
Qed.

Lemma signup_creates_complete_profile_witness :
  exists p,
    handle_new_user [] (mk_auth_user 9%N None (Some [("email"%string,
                          Some "ada@example.com"%string)])) 5%Z
    = (Ok (mk_auth_user 9%N None (Some [("email"%string,
                          Some "ada@example.com"%string)])), [] ++ [p]) /\
    id p = 9%N /\
    (exists e, email p = Some e) /\
    (exists n, full_name p = Some n) /\
    subscription_tier p = Some "free"%string /\
    (forall e, @None string = Some e -> email p = Some e).
Proof.
  apply (signup_creates_complete_profile []
           (mk_auth_user 9%N None (Some [("email"%string,
                          Some "ada@example.com"%string)])) 5%Z).
  intros p [].
Defined.

(** X8: a signup makes nobody an administrator: after [handle_new_user],
    successful or not, [is_admin()] answers for every caller what it
    answered before. *)
Theorem signup_grants_no_admin all_profiles new now auth_uid :
  is_admin (snd (handle_new_user all_profiles new now)) auth_uid
  = is_admin all_profiles auth_uid.
Proof.
  unfold handle_new_user.
  destruct (negb _); [reflexivity|].
  destruct (existsb _ all_profiles); [reflexivity|].
  cbn [snd]. unfold is_admin. rewrite existsb_app. cbn [existsb].
  cbn [role new_profile].
  assert (H : forall c : tvl,
             holds (and3 c (text_eq3 (Some "user"%string)
                                     (Some "admin"%string))) = false).
  { intros [[|]|]; reflexivity. }
  rewrite H. now rewrite !orb_false_r.
Qed.

Lemma uuid_eq3_iff (a b : option uuid) :
  holds (uuid_eq3 a b) = true <-> exists u, a = Some u /\ b = Some u.
Proof.
  unfold uuid_eq3. rewrite holds_cmp3. split.
  - intros (x & y & -> & -> & H). apply N.eqb_eq in H. subst. eauto.
  - intros (u & -> & ->). exists u, u. repeat split. apply N.eqb_refl.
Qed.

(** [is_admin()] is true exactly for a caller with a session whose
    profile has the role 'admin'. *)
Lemma is_admin_iff all_profiles auth_uid :
  is_admin all_profiles auth_uid = true <->
  exists p u, In p all_profiles /\ auth_uid = Some u /\ id p = u /\
              role p = Some "admin"%string.
Proof.
  unfold is_admin. rewrite existsb_exists. split.
  - intros (p & Hp & H). apply holds_and3 in H. destruct H as [Hid Hrole].
    apply uuid_eq3_iff in Hid. destruct Hid as (u & Hu & ->).
    unfold text_eq3 in Hrole. apply holds_cmp3 in Hrole.
    destruct Hrole as (a & b & Ha & Hb & Heq).
    inversion Hb; subst. apply String.eqb_eq in Heq. subst.
    inversion Hu; subst. exists p, (id p). auto.
  - intros (p & u & Hp & -> & <- & Hrole). exists p. split; [exact Hp|].
    apply holds_and3. split.
    + apply uuid_eq3_iff. eauto.
    + rewrite Hrole. reflexivity.
Qed.

(** X9: under the policy of [dop_prompt_records], every row that
    [search_similar_prompts] returns to a caller is a record whose
    [user_id] is the caller's own id; a caller without a session gets no
    row, and a record whose [user_id] is NULL is returned to nobody. The
    call raises only for a negative count and, with a positive count, for
    a query whose dimension is not that of the index or of an embedding
    of one of the caller's own records. *)
Theorem search_reads_own_records_only
  (float8 : rounding) (cosine_distance : vector -> vector -> float)
  (plan : Search.scan) (tiebreak : dop_prompt_records.row -> nat)
  auth_uid records q mmt mm k thr :
  match search_similar_prompts_as float8 cosine_distance plan tiebreak auth_uid
          records q mmt mm k thr with
  | Ok rows =>
      Forall (fun s => exists r u,
                In r records /\ s = Search.select float8 cosine_distance q r /\
                auth_uid = Some u /\
                dop_prompt_records.user_id r = Some u) rows /\
      (auth_uid = None -> rows = [])
  | Raise e =>
      ((k < 0)%Z /\ e = invalid_row_count_in_limit_clause) \/
      ((0 < k)%Z /\ e = data_exception /\
       Properties.dimension_mismatch plan
         (visible_prompt_records auth_uid records) q)
  end.
Proof.
  unfold search_similar_prompts_as, Search.search_similar_prompts.
  pose proof (SearchFacts.matching_rows_cases float8 cosine_distance plan
                tiebreak (visible_prompt_records auth_uid records) q mmt mm thr)
    as Hcases.
  destruct (limit_cases k
              match Search.matching_rows float8 cosine_distance plan tiebreak
                      (visible_prompt_records auth_uid records)
                      q mmt mm thr with
              | Ok rows =>
                  Ok (map (Search.select float8 cosine_distance q) rows)
              | Raise e => Raise e
              end)
    as [[Hk ->]|[[Hk ->]|[Hk ->]]].
  - now left.
  - split; [constructor|reflexivity].
  - destruct (Search.matching_rows float8 cosine_distance plan tiebreak
                (visible_prompt_records auth_uid records) q mmt mm thr)
      as [own|err].
    2:{ destruct Hcases as (-> & Hmis). right. auto. }
    destruct Hcases as (_ & Hin).
    assert (Hall : Forall (fun s => exists r u,
                  In r records /\
                  s = Search.select float8 cosine_distance q r /\
                  auth_uid = Some u /\
                  dop_prompt_records.user_id r = Some u)
                (firstn (Z.to_nat k)
                   (map (Search.select float8 cosine_distance q) own))).
    { apply Forall_forall. intros s Hs.
      apply In_firstn, in_map_iff in Hs. destruct Hs as (r & <- & Hr).
      apply Hin in Hr. destruct Hr as (Hr & _).
      unfold visible_prompt_records in Hr. apply filter_In in Hr.
      destruct Hr as [Hr Hown]. apply uuid_eq3_iff in Hown.
      destruct Hown as (u & Hu & Hr'). exists r, u. auto. }
    split; [exact Hall|].
    intros ->.
    destruct (firstn _ _) as [|s l]; [reflexivity|].
    inversion Hall as [|? ? (r & u & _ & _ & Hu & _) _]. discriminate.
Qed.

(** X10: under the policy "gommo_select", an administrator reads every
    row of [gommo_credentials]; any other caller reads exactly the rows
    whose [user_id] is the caller's own id, and a caller without a
    session reads none. *)
Theorem gommo_credentials_visibility all_profiles auth_uid credentials :
  (if is_admin all_profiles auth_uid
   then visible_gommo_credentials all_profiles auth_uid credentials
        = credentials
   else forall c,
     In c (visible_gommo_credentials all_profiles auth_uid credentials) <->
     In c credentials /\ auth_uid = Some (user_id c)) /\
  visible_gommo_credentials all_profiles None credentials = [].
Proof.
  unfold visible_gommo_credentials, gommo_select.
  split.
  - destruct (is_admin all_profiles auth_uid).
    + induction credentials as [|c l IH]; simpl; [reflexivity|].
      rewrite IH.
      now destruct (uuid_eq3 auth_uid (Some (user_id c))) as [[|]|].
    + intros c. rewrite filter_In.
      assert (H : holds (or3 (uuid_eq3 auth_uid (Some (user_id c)))
                             (Some false)) = true <->
                  auth_uid = Some (user_id c)).
      { rewrite holds_or3, uuid_eq3_iff. split.
        - intros [(u & -> & Hu)|H]; [|discriminate].
          now inversion Hu.
        - intros ->. left. eauto. }
      rewrite H. tauto.
  - assert (Hadm : is_admin all_profiles None = false).
    { destruct (is_admin all_profiles None) eqn:E; [|reflexivity].
      apply is_admin_iff in E. destruct E as (p & u & _ & Hu & _).
      discriminate. }
    rewrite Hadm.
    induction credentials as [|c l IH]; simpl; [reflexivity|exact IH].
Qed.

(** One administrator (id 1) and the credentials of user 2. *)
Example gommo_credentials_of_user_2 :
  let admin :=
    mk_row 1%N None None None None 0%Z None None None
      (Some "admin"%string) None in
  let c := mk_gommo_credentials 2%N "studio" "token" None 0%Z in
  visible_gommo_credentials [admin] (Some 1%N) [c] = [c] /\
  visible_gommo_credentials [admin] (Some 2%N) [c] = [c] /\
  visible_gommo_credentials [admin] (Some 3%N) [c] = [] /\
  visible_gommo_credentials [admin] None [c] = [].
Proof.
  repeat split.
Qed.

End PolicyTheorems.

(** ** The image editor, continued *)

Module EditorMore.
Import Editor EditorFlows.
Local Open Scope nat_scope.

Lemma slice_last_50_eq {A : Type} (a : list A) :
  slice_last 50 a = skipn (List.length a - 50) a.
Proof.
  reflexivity.
Qed.

(** Slicing, appending and slicing again is appending and slicing once. *)
Lemma slice_last_50_app {A : Type} (a b : list A) :
  slice_last 50 (slice_last 50 a ++ b) = slice_last 50 (a ++ b).
Proof.
  rewrite !slice_last_50_eq.
  set (k := List.length a - 50).
  assert (Hk : k <= List.length a) by (unfold k; lia).
  assert (Hcut : skipn k (a ++ b) = skipn k a ++ b).
  { rewrite skipn_app. replace (k - List.length a) with 0 by lia.
    reflexivity. }
  rewrite <- Hcut, skipn_skipn. f_equal.
  rewrite Hcut, !length_app, length_skipn. unfold k. lia.
Qed.

Lemma last_slice_last_50 {A : Type} (a : list A) (x d : A) :
  last (slice_last 50 (a ++ [x])) d = x.
Proof.
  rewrite slice_last_50_eq, skipn_app, length_app. cbn [List.length].
  replace (List.length a + 1 - 50 - List.length a) with 0 by lia.
  cbn [skipn]. apply last_last.
Qed.

Lemma run_cons a actions st : run (a :: actions) st = run actions (step st a).
Proof.
  reflexivity.
Qed.

(** X11: adding images one after the other leaves in the history the
    last 50 of the old entries followed by the new images, in the order
    they were added. *)
Theorem history_keeps_the_latest img imgs st :
  history (run (map AddToHistory (img :: imgs)) st)
  = slice_last 50 (history st ++ img :: imgs).
Proof.
  revert img st. induction imgs as [|y imgs IH]; intros img st.
  - reflexivity.
  - cbn [map]. rewrite run_cons. cbn [step].
    change (AddToHistory y :: map AddToHistory imgs)
      with (map AddToHistory (y :: imgs)).
    rewrite IH. unfold addToHistory at 1. cbn [history].
    rewrite slice_last_50_app, <- app_assoc. reflexivity.
Qed.

(** X12: [onEditorSave] always leaves the editor closed, with no image,
    no error and the loading flag as it was. When no image was open the
    history is untouched; otherwise its newest entry is the open image
    with the edited content, the new id and the new time. *)
Theorem onEditorSave_closes_and_records edited newId now st :
  let st' := onEditorSave edited newId now st in
  isOpen st' = false /\ currentImage st' = None /\ error st' = None /\
  isLoading st' = isLoading st /\
  match currentImage st with
  | None => history st' = history st
  | Some cur =>
      forall d,
        last (history st') d
        = {| id := newId;
             image := edited;
             prompt := prompt cur;
             source := source cur;
             createdAt := now;
             model := model cur;
             provider := provider cur |}
  end.
Proof.
  unfold onEditorSave. cbv zeta.
  destruct (currentImage st) as [cur|]; cbn; repeat split.
  intros d. apply last_slice_last_50.
Qed.

(** X13: [openEditorWithUrl] always ends with the loading flag off and
    the history untouched. If the image was fetched the editor is open on
    it, with its URL as source and no error; if not, nothing is opened or
    closed and the error is the message of the failure, or the text
    "Failed to load image from URL" when that message is empty or
    missing. *)
Theorem openEditorWithUrl_settles fetched address prompt_text newId now st :
  let st' := openEditorWithUrl fetched address prompt_text newId now st in
  isLoading st' = false /\ history st' = history st /\
  match fetched with
  | Resolved base64 =>
      isOpen st' = true /\ error st' = None /\
      exists img, currentImage st' = Some img /\ image img = base64 /\
                  source img = url address /\ prompt img = prompt_text
  | Rejected message =>
      isOpen st' = isOpen st /\ currentImage st' = currentImage st /\
      error st'
      = Some match message with
             | Some (String c m) => String c m
             | Some EmptyString | None =>
                 "Failed to load image from URL"%string
             end
  end.
Proof.
  unfold openEditorWithUrl. cbv zeta.
  destruct fetched as [base64|message]; cbn; repeat split.
  - eexists. repeat split.
  - destruct message as [[|c m]|]; reflexivity.
Qed.

(** X14: [openGommoImageForEdit] and [openUploadedImageForEdit] turn the
    loading flag on and, when the image loads, open the editor without
    turning it off again; only a failure turns it off, recording the
    error and opening nothing. Neither touches the history. *)
Theorem gommo_and_upload_openers_loading fetched imageId groupId name
  newId now st :
  let g := openGommoImageForEdit fetched imageId groupId newId now st in
  let u := openUploadedImageForEdit fetched name newId now st in
  history g = history st /\ history u = history st /\
  match fetched with
  | Resolved base64 =>
      isLoading g = true /\ isOpen g = true /\
      isLoading u = true /\ isOpen u = true
  | Rejected _ =>
      isLoading g = false /\ isOpen g = isOpen st /\
      currentImage g = currentImage st /\
      error g = Some "Failed to load Gommo image"%string /\
      isLoading u = false /\ isOpen u = isOpen st /\
      currentImage u = currentImage st /\
      error u = Some "Failed to load uploaded file"%string
  end.
Proof.
  unfold openGommoImageForEdit, openUploadedImageForEdit. cbv zeta.
  destruct fetched as [base64|message]; cbn; repeat split.
Qed.

End EditorMore.

(** ** The director chat *)

Module DirectorTheorems.
Import EditorFlows DirectorChat.
Local Open Scope nat_scope.
Local Open Scope string_scope.

Section WithTypes.
Variable SceneRest : Type.
Variable ProjectRest : Type.
Variable trim : string -> string.
Variable parseInt : string -> option Z.
Variable JSON_parse_intent : string -> option (option IntentResult).
Variable JSON_parse_prompts : string -> option (option (list string)).

Local Notation "'State'" := (ProjectState SceneRest ProjectRest).
Local Notation "'recognize'" := (recognizeIntent trim JSON_parse_intent).
Local Notation "'command'" :=
  (handleCommand trim parseInt JSON_parse_intent JSON_parse_prompts).

(** Case analysis on everything a branch of [handleCommand] looks at. *)
Ltac branches :=
  repeat match goal with
         | |- context [callGeminiText ?t ?k ?r] =>
             destruct (callGeminiText t k r)
         | |- context [find_scene ?s ?r] => destruct (find_scene s r)
         | |- context [targetScenes_of ?p ?s ?e] =>
             destruct (targetScenes_of p s e)
         | |- context [match filter ?f ?l with _ => _ end] =>
             destruct (filter f l)
         | |- context [JSON_parse_prompts ?x] =>
             destruct (JSON_parse_prompts x) as [[?|]|]
         | |- context [if Nat.eqb ?a ?b then _ else _] =>
             destruct (Nat.eqb a b)
         | |- context [match entities ?r with _ => _ end] =>
             destruct (entities r)
         | |- context [match scenes ?s with _ => _ end] =>
             destruct (scenes s)
         | |- context [match ?g with Resolved _ => _ | Rejected _ => _ end] =>
             destruct g
         end.

Lemma blank_key_falls_back userApiKey reply :
  trim (key_or_empty userApiKey) = EmptyString ->
  recognize userApiKey reply = Some fallback_intent.
Proof.
  intros H. unfold recognizeIntent, callGeminiText. now rewrite H.
Qed.

(** X15: without a usable API key (none, or one that is blank once
    trimmed) every command is only acknowledged. Its effects are exactly
    three: the director is set to thinking, the answer of the [catch] of
    [recognizeIntent] is logged, and the director is set to success with
    that answer. Nothing is stopped, updated, generated or thrown. *)
Theorem blank_key_only_acknowledges (state : State) userApiKey
  intent_reply second_reply generated :
  trim (key_or_empty userApiKey) = EmptyString ->
  let trace :=
    command state userApiKey intent_reply second_reply generated in
  trace
  = [ SetAgentState director thinking (Some "Đang phân tích yêu cầu...")
        (Some "NLU Processing");
      AddProductionLog director
        "Tôi nghe rõ, nhưng có chút trục trặc khi phân tích lệnh. Bạn có thể nói rõ hơn không?"
        "info";
      SetAgentState director success
        (Some "Tôi nghe rõ, nhưng có chút trục trặc khi phân tích lệnh. Bạn có thể nói rõ hơn không?")
        None ].
Proof.
  intros H. unfold handleCommand. cbv zeta.
  rewrite (blank_key_falls_back userApiKey intent_reply H).
  reflexivity.
Qed.

(** X16: the effects of a command are those of its intent. The batch is
    stopped only by PAUSE_BATCH; the project state is updated only by
    UPDATE_STYLE, MATERIAL_INHERITANCE and SYNC_AND_REGENERATE; images
    are requested only by REGENERATE_RANGE, MATERIAL_INHERITANCE and
    SYNC_AND_REGENERATE; and one command updates the state at most once
    and requests images at most once. *)
Theorem effects_follow_the_intent (state : State) userApiKey
  intent_reply second_reply generated :
  let chosen :=
    match recognize userApiKey intent_reply with
    | Some result => intent_case (intent result)
    | None => other_intent
    end in
  let trace :=
    command state userApiKey intent_reply second_reply generated in
  (existsb stops_batch trace = true -> chosen = PAUSE_BATCH) /\
  (existsb updates_state trace = true ->
   In chosen [UPDATE_STYLE; MATERIAL_INHERITANCE; SYNC_AND_REGENERATE]) /\
  (existsb generates trace = true ->
   In chosen [REGENERATE_RANGE; MATERIAL_INHERITANCE;
              SYNC_AND_REGENERATE]) /\
  List.length (updaters trace) <= 1 /\
  List.length (requested_ids trace) <= 1.
Proof.
  unfold handleCommand. cbv zeta.
  destruct (recognize userApiKey intent_reply) as [result|];
    [|cbn; intuition (try discriminate; try lia)].
  destruct (intent_case (intent result));
    branches; cbn; intuition (try discriminate; try lia).
Qed.

Lemma In_targetScenes_of (state : State) e s :
  In s (targetScenes_of parseInt state e) <->
  In s (scenes state) /\
  exists num a b,
    parseInt (sceneNumber s) = Some num /\
    startNum e = Some a /\ endNum e = Some b /\
    (a <= num <= b)%Z.
Proof.
  unfold targetScenes_of, in_range. rewrite filter_In.
  destruct (parseInt (sceneNumber s)) as [num|];
    destruct (startNum e) as [a|]; destruct (endNum e) as [b|];
    try (split; [intros [_ H]; discriminate
                |intros [_ (? & ? & ? & ? & ? & ? & _)]; discriminate]).
  rewrite andb_true_iff, !Z.leb_le. split.
  - intros [Hin H]. split; [exact Hin|]. exists num, a, b. auto.
  - intros [Hin (n' & a' & b' & Hn & Ha & Hb & H)].
    inversion Hn; inversion Ha; inversion Hb; subst. auto.
Qed.

(** X17: REGENERATE_RANGE never updates the project state and never
    stops the batch. When the result has entities it requests images
    once, for the scenes whose number lies between the two bounds, in the
    order of the project, and only if there is such a scene: otherwise
    the director reports an error and nothing is requested. A range that
    is missing or empty selects no scene; with a second bound that is
    missing or 0 the scenes selected are those whose number is the first
    bound. When the result has no entities a TypeError is thrown after
    the log: nothing is requested and the director is left thinking. *)
Theorem regenerate_range_requests_scenes_in_range (state : State)
  userApiKey intent_reply second_reply generated result :
  let trace :=
    command state userApiKey intent_reply second_reply generated in
  recognize userApiKey intent_reply = Some result ->
  intent_case (intent result) = REGENERATE_RANGE ->
  updaters trace = [] /\
  existsb stops_batch trace = false /\
  match entities result with
  | None =>
      requested_ids trace = [] /\
      existsb throws trace = true /\
      last_status director trace = Some thinking
  | Some ents =>
      let targets := targetScenes_of parseInt state ents in
      (forall s,
         In s targets <->
         In s (scenes state) /\
         exists num a b,
           parseInt (sceneNumber s) = Some num /\
           startNum ents = Some a /\
           endNum ents = Some b /\ (a <= num <= b)%Z) /\
      requested_ids trace
      = match targets with [] => [] | _ :: _ => [map id targets] end /\
      existsb throws trace = false /\
      last_status director trace
      = Some match targets with [] => error | _ :: _ => success end /\
      (range ents = None \/ range ents = Some [] -> targets = []) /\
      (forall a, range ents = Some [a] \/
                 (exists l, range ents = Some (a :: 0%Z :: l)) ->
       forall s, In s targets <->
                 In s (scenes state) /\ parseInt (sceneNumber s) = Some a)
  end.
Proof.
  cbv zeta. intros Hresult Hcase.
  unfold handleCommand. cbv zeta. rewrite Hresult, Hcase.
  destruct (entities result) as [ents|]; [|repeat split].
  split; [destruct (targetScenes_of parseInt state ents); reflexivity|].
  split; [destruct (targetScenes_of parseInt state ents); reflexivity|].
  split; [intros s; apply In_targetScenes_of|].
  split; [destruct (targetScenes_of parseInt state ents); reflexivity|].
  split; [destruct (targetScenes_of parseInt state ents); reflexivity|].
  split; [destruct (targetScenes_of parseInt state ents); reflexivity|].
  split.
  - intros Hrange.
    destruct (targetScenes_of parseInt state ents) as [|s l] eqn:E;
      [reflexivity|].
    assert (Hin : In s (targetScenes_of parseInt state ents))
      by (rewrite E; now left).
    apply In_targetScenes_of in Hin.
    destruct Hin as (_ & num & a & b & _ & Ha & _).
    unfold startNum in Ha.
    destruct Hrange as [Hr|Hr]; rewrite Hr in Ha; discriminate.
  - intros a Hrange s. rewrite In_targetScenes_of.
    assert (Hbounds : startNum ents = Some a /\ endNum ents = Some a).
    { unfold endNum, startNum.
      destruct Hrange as [Hr|(l & Hr)]; rewrite Hr; split; reflexivity. }
    destruct Hbounds as [Ha Hb]. rewrite Ha, Hb. split.
    + intros [Hin (num & a' & b' & Hn & Ha' & Hb' & H)].
      inversion Ha'; inversion Hb'; subst.
      split; [exact Hin|]. rewrite Hn. f_equal. lia.
    + intros [Hin Hn]. split; [exact Hin|]. exists a, a, a.
      repeat split; auto; lia.
Qed.

(** *** The updaters *)

Local Notation "'pending_scene'" :=
  (fun x : Scene SceneRest => negb (has_image x)).

Lemma findIndex_none {A : Type} (p : A -> bool) (a : list A) :
  findIndex p a = None -> forall x, In x a -> p x = false.
Proof.
  induction a as [|y a IH]; simpl; [intros _ x []|].
  destruct (p y) eqn:E; [discriminate|].
  destruct (findIndex p a); [discriminate|].
  intros _ x [<-|Hx]; [exact E|]. now apply IH.
Qed.

(** Giving each scene of a list without duplicate ids the prompt at its
    own index gives the prompts in order. *)
Lemma prompts_by_index (l : list (Scene SceneRest)) (prompts : list string) :
  NoDup (map id l) -> List.length prompts = List.length l ->
  map (fun y => match findIndex (fun z => id z =? id y) l with
                | Some index => nth index prompts EmptyString
                | None => contextDescription y
                end) l
  = prompts.
Proof.
  revert prompts. induction l as [|x l IH]; intros [|p prompts] Hnd Hlen;
    try discriminate; [reflexivity|].
  cbn [map findIndex]. rewrite String.eqb_refl. cbn [nth]. f_equal.
  inversion Hnd as [|? ? Hx Hl]; subst.
  etransitivity; [|apply (IH prompts Hl); simpl in Hlen; lia].
  apply map_ext_in. intros y Hy. cbn [findIndex].
  destruct (String.eqb_spec (id x) (id y)) as [Heq|_].
  - elim Hx. rewrite Heq. now apply in_map.
  - destruct (findIndex (fun z => id z =? id y) l); reflexivity.
Qed.

Lemma filter_map_commute {A : Type} (p : A -> bool) (f : A -> A) l :
  (forall x, p (f x) = p x) -> filter p (map f l) = map f (filter p l).
Proof.
  intros H. induction l as [|x l IH]; simpl; [reflexivity|].
  rewrite H. destruct (p x); simpl; now rewrite IH.
Qed.

(** X18: the UPDATE_STYLE updater changes prompts only. On whatever state
    it is run, the scenes keep their ids, numbers, images and other
    fields, and a scene that has an image is not changed at all. Run on
    the state the command saw, with scenes without image that have
    distinct ids and as many new prompts as there are such scenes, it
    gives them the new prompts in order. *)
Theorem rewrite_styles_assigns_in_order
  (scenesToUpdate : list (Scene SceneRest)) (newPrompts : list string)
  (s : State) :
  let s' := rewrite_styles scenesToUpdate newPrompts s in
  map id (scenes s') = map id (scenes s) /\
  map sceneNumber (scenes s') = map sceneNumber (scenes s) /\
  map generatedImage (scenes s') = map generatedImage (scenes s) /\
  map scene_rest (scenes s') = map scene_rest (scenes s) /\
  project_rest s' = project_rest s /\
  filter has_image (scenes s') = filter has_image (scenes s) /\
  (scenesToUpdate = filter pending_scene (scenes s) ->
   NoDup (map id scenesToUpdate) ->
   List.length newPrompts = List.length scenesToUpdate ->
   map contextDescription (filter pending_scene (scenes s')) = newPrompts).
Proof.
  cbv zeta. unfold rewrite_styles. cbn [scenes project_rest].
  set (f := fun scene : Scene SceneRest =>
              if negb (has_image scene)
              then match findIndex (fun su => id su =? id scene)
                           scenesToUpdate with
                   | Some index =>
                       {| id := id scene;
                          sceneNumber := sceneNumber scene;
                          contextDescription :=
                            nth index newPrompts EmptyString;
                          generatedImage := generatedImage scene;
                          scene_rest := scene_rest scene |}
                   | None => scene
                   end
              else scene).
  assert (Hkeep : forall x,
            id (f x) = id x /\ sceneNumber (f x) = sceneNumber x /\
            generatedImage (f x) = generatedImage x /\
            scene_rest (f x) = scene_rest x /\
            has_image (f x) = has_image x).
  { intros x. unfold f.
    destruct (negb (has_image x)); [|auto].
    destruct (findIndex _ scenesToUpdate); auto. }
  assert (Hsame : forall x, has_image x = true -> f x = x).
  { intros x Hx. unfold f. now rewrite Hx. }
  repeat split.
  - rewrite map_map. apply map_ext. intros x. apply Hkeep.
  - rewrite map_map. apply map_ext. intros x. apply Hkeep.
  - rewrite map_map. apply map_ext. intros x. apply Hkeep.
  - rewrite map_map. apply map_ext. intros x. apply Hkeep.
  - rewrite filter_map_commute by (intros x; apply Hkeep).
    etransitivity; [|apply map_id].
    apply map_ext_in. intros x Hx. apply filter_In in Hx.
    apply Hsame, Hx.
  - intros Hsu Hnd Hlen.
    rewrite filter_map_commute
      by (intros x; f_equal; apply Hkeep).
    rewrite <- Hsu, map_map.
    etransitivity;
      [|apply (prompts_by_index scenesToUpdate newPrompts Hnd Hlen)].
    apply map_ext_in. intros y Hy. unfold f.
    rewrite Hsu in Hy. apply filter_In in Hy. destruct Hy as [_ Hy].
    rewrite Hy.
    destruct (findIndex (fun su => id su =? id y) scenesToUpdate);
      reflexivity.
Qed.

Lemma replace_prompt_scenes targetId newPrompt (s : State) :
  let s' := replace_prompt targetId newPrompt s in
  map id (scenes s') = map id (scenes s) /\
  map sceneNumber (scenes s') = map sceneNumber (scenes s) /\
  filter (fun x => negb (id x =? targetId)) (scenes s')
  = filter (fun x => negb (id x =? targetId)) (scenes s) /\
  forall x, In x (scenes s') -> id x = targetId ->
            has_image x = false /\ contextDescription x = newPrompt.
Proof.
  cbv zeta. unfold replace_prompt. cbn [scenes].
  set (g := fun scene : Scene SceneRest =>
              if id scene =? targetId
              then {| id := id scene;
                      sceneNumber := sceneNumber scene;
                      contextDescription := newPrompt;
                      generatedImage := None;
                      scene_rest := scene_rest scene |}
              else scene).
  assert (Hid : forall x, id (g x) = id x)
    by (intros x; unfold g; now destruct (id x =? targetId)).
  split; [|split; [|split]].
  - rewrite map_map. apply map_ext. exact Hid.
  - rewrite map_map. apply map_ext. intros x. unfold g.
    now destruct (id x =? targetId).
  - rewrite filter_map_commute by (intros x; now rewrite Hid).
    etransitivity; [|apply map_id].
    apply map_ext_in. intros x Hx. apply filter_In in Hx.
    destruct Hx as [_ Hx]. unfold g.
    destruct (id x =? targetId); [discriminate|reflexivity].
  - intros x Hx Htarget. apply in_map_iff in Hx.
    destruct Hx as (y & <- & _). rewrite Hid in Htarget.
    unfold g. apply String.eqb_eq in Htarget. rewrite Htarget.
    split; reflexivity.
Qed.

(** X19: MATERIAL_INHERITANCE and SYNC_AND_REGENERATE, for a result with
    entities. When the source or the target scene is not found, or the
    request for the new prompt fails, the director reports an error and
    the state is not updated and no image is requested. Otherwise the
    state is updated once, then images are requested once, for the target
    scene alone; the director ends in success or, when the generation
    fails, in error. The updater, on whatever state it is run, gives
    every scene with the id of the target the new prompt and no image,
    and leaves the other scenes and all ids and numbers as they are. For
    a result without entities the search of the source scene throws a
    TypeError on the first scene of the project, before any log, and the
    director is left thinking; a project without scenes gets the
    error of the scene that is not found. *)
Theorem material_and_sync_regenerate_the_target (state : State)
  userApiKey intent_reply second_reply generated result :
  let trace :=
    command state userApiKey intent_reply second_reply generated in
  recognize userApiKey intent_reply = Some result ->
  intent_case (intent result) = MATERIAL_INHERITANCE \/
  intent_case (intent result) = SYNC_AND_REGENERATE ->
  existsb stops_batch trace = false /\
  match entities result with
  | None =>
      updaters trace = [] /\ requested_ids trace = [] /\
      match scenes state with
      | [] =>
          existsb throws trace = false /\
          last_status director trace = Some error
      | _ :: _ =>
          existsb throws trace = true /\
          last_status director trace = Some thinking /\
          List.length trace = 2
      end
  | Some ents =>
      existsb throws trace = false /\
      match find_scene state (sourceSceneId ents),
            find_scene state (targetSceneId ents),
            callGeminiText trim (key_or_empty userApiKey) second_reply
      with
      | Some _, Some target, Resolved newPrompt =>
          updaters trace = [replace_prompt (id target) newPrompt] /\
          requested_ids trace = [[id target]] /\
          last_status director trace
          = Some match generated with
                 | Resolved _ => success
                 | Rejected _ => error
                 end /\
          forall s : State,
            let s' := replace_prompt (id target) newPrompt s in
            map id (scenes s') = map id (scenes s) /\
            map sceneNumber (scenes s') = map sceneNumber (scenes s) /\
            filter (fun x => negb (id x =? id target)) (scenes s')
            = filter (fun x => negb (id x =? id target)) (scenes s) /\
            forall x, In x (scenes s') -> id x = id target ->
                      has_image x = false /\
                      contextDescription x = newPrompt
      | _, _, _ =>
          updaters trace = [] /\ requested_ids trace = [] /\
          last_status director trace = Some error
      end
  end.
Proof.
  cbv zeta. intros Hresult Hcase. unfold handleCommand. cbv zeta.
  rewrite Hresult.
  destruct Hcase as [Hcase|Hcase]; rewrite Hcase;
    (destruct (entities result) as [ents|];
     [|destruct (scenes state); repeat split]);
    destruct (find_scene state (sourceSceneId ents)) as [src|];
    destruct (find_scene state (targetSceneId ents)) as [tgt|];
    destruct (callGeminiText trim (key_or_empty userApiKey) second_reply)
      as [newPrompt|failure];
    try (repeat split; reflexivity);
    (split; [destruct generated; reflexivity|];
     split; [destruct generated; reflexivity|];
     split; [destruct generated; reflexivity|];
     split; [destruct generated; reflexivity|];
     split; [destruct generated; reflexivity|];
     intros s; apply replace_prompt_scenes).
Qed.

(** X20: UPDATE_STYLE never requests images, never stops the batch and
    throws nothing. It updates the state only when there is a scene
    without image, the result has entities, the request succeeds and its
    reply is an array with exactly one prompt per such scene; the director
    then ends in success. With scenes to rewrite, a result without
    entities, a request that fails and a reply that cannot be parsed end
    in error. In every other case (no scene without image, a reply that
    is not an array, or one of another length) the director is left
    thinking. *)
Theorem update_style_needs_a_full_rewrite (state : State)
  userApiKey intent_reply second_reply generated result :
  let trace :=
    command state userApiKey intent_reply second_reply generated in
  let pending := filter pending_scene (scenes state) in
  let reply := callGeminiText trim (key_or_empty userApiKey) second_reply in
  recognize userApiKey intent_reply = Some result ->
  intent_case (intent result) = UPDATE_STYLE ->
  requested_ids trace = [] /\ existsb stops_batch trace = false /\
  existsb throws trace = false /\
  match pending, entities result, reply with
  | [], _, _ =>
      updaters trace = [] /\ last_status director trace = Some thinking
  | _ :: _, None, _ =>
      updaters trace = [] /\ last_status director trace = Some error
  | _ :: _, Some _, Rejected _ =>
      updaters trace = [] /\ last_status director trace = Some error
  | _ :: _, Some _, Resolved rawUpdates =>
      match JSON_parse_prompts rawUpdates with
      | None =>
          updaters trace = [] /\ last_status director trace = Some error
      | Some (Some newPrompts) =>
          if Nat.eqb (List.length newPrompts) (List.length pending)
          then updaters trace = [rewrite_styles pending newPrompts] /\
               last_status director trace = Some success
          else updaters trace = [] /\
               last_status director trace = Some thinking
      | Some None =>
          updaters trace = [] /\ last_status director trace = Some thinking
      end
  end.
Proof.
  cbv zeta. intros Hresult Hcase. unfold handleCommand. cbv zeta.
  rewrite Hresult, Hcase.
  destruct (filter pending_scene (scenes state)) as [|x l].
  - repeat split.
  - destruct (entities result) as [ents|]; [|repeat split].
    destruct (callGeminiText trim (key_or_empty userApiKey) second_reply)
      as [raw|failure]; [|repeat split].
    destruct (JSON_parse_prompts raw) as [[newPrompts|]|];
      [|repeat split|repeat split].
    destruct (Nat.eqb (List.length newPrompts) (List.length (x :: l)));
      repeat split.
Qed.

End WithTypes.

Import DirectorExamples.

Lemma blank_key_only_acknowledges_witness :
  let trace :=
    handleCommand same_text parseInt_digits
      (fun _ => Some (Some redo_2_to_3)) (fun _ => None) project None
      (Resolved "{}") (Resolved "[]") (Resolved tt) in
  trace
  = [ SetAgentState director thinking (Some "Đang phân tích yêu cầu...")
        (Some "NLU Processing");
      AddProductionLog director
        "Tôi nghe rõ, nhưng có chút trục trặc khi phân tích lệnh. Bạn có thể nói rõ hơn không?"
        "info";
      SetAgentState director success
        (Some "Tôi nghe rõ, nhưng có chút trục trặc khi phân tích lệnh. Bạn có thể nói rõ hơn không?")
        None ].
Proof.
  apply (blank_key_only_acknowledges unit unit same_text parseInt_digits
           (fun _ => Some (Some redo_2_to_3)) (fun _ => None) project None
           (Resolved "{}") (Resolved "[]") (Resolved tt)).
  reflexivity.
Defined.

Lemma regenerate_range_witness :
  let trace :=
    handleCommand same_text parseInt_digits
      (fun _ => Some (Some redo_2_to_3)) (fun _ => None) project
      (Some "key") (Resolved "{}") (Resolved "[]") (Resolved tt) in
  requested_ids trace = [["s2"; "s3"]] /\ updaters trace = [] /\
  last_status director trace = Some success.
Proof.
  pose proof (regenerate_range_requests_scenes_in_range unit unit same_text
                parseInt_digits (fun _ => Some (Some redo_2_to_3))
                (fun _ => None) project (Some "key") (Resolved "{}")
                (Resolved "[]") (Resolved tt) redo_2_to_3 eq_refl eq_refl)
    as (Hupd & _ & _ & Hreq & _ & Hlast & _).
  repeat split; assumption.
Defined.

Lemma rewrite_styles_witness :
  let pending := filter (fun x => negb (has_image x)) (scenes project) in
  map contextDescription
    (filter (fun x => negb (has_image x))
       (scenes (rewrite_styles pending ["noir knight"; "noir duel"]
                  project)))
  = ["noir knight"; "noir duel"].
Proof.
  destruct (rewrite_styles_assigns_in_order unit unit
              (filter (fun x => negb (has_image x)) (scenes project))
              ["noir knight"; "noir duel"] project)
    as (_ & _ & _ & _ & _ & _ & H).
  apply H.
  - reflexivity.
  - vm_compute. repeat (constructor; [simpl; intuition discriminate|]).
    constructor.
  - reflexivity.
Defined.

Lemma sync_witness :
  let trace :=
    handleCommand same_text parseInt_digits
      (fun _ => Some (Some sync_3_with_2)) (fun _ => None) project
      (Some "key") (Resolved "{}") (Resolved "the duel, at dawn")
      (Resolved tt) in
  requested_ids trace = [["s3"]] /\
  last_status director trace = Some success.
Proof.
  pose proof (material_and_sync_regenerate_the_target unit unit same_text
                parseInt_digits (fun _ => Some (Some sync_3_with_2))
                (fun _ => None) project (Some "key") (Resolved "{}")
                (Resolved "the duel, at dawn") (Resolved tt)
                sync_3_with_2 eq_refl (or_intror eq_refl)) as H.
  cbn in H. destruct H as (_ & _ & _ & Hreq & Hlast & _).
  split; assumption.
Defined.

Lemma update_style_witness :
  let trace :=
    handleCommand same_text parseInt_digits (fun _ => Some (Some restyle))
      (fun _ => Some (Some ["noir knight"; "noir duel"])) project
      (Some "key") (Resolved "{}") (Resolved "[]") (Resolved tt) in
  requested_ids trace = [] /\
  last_status director trace = Some success.
Proof.
  pose proof (update_style_needs_a_full_rewrite unit unit same_text
                parseInt_digits (fun _ => Some (Some restyle))
                (fun _ => Some (Some ["noir knight"; "noir duel"])) project
                (Some "key") (Resolved "{}") (Resolved "[]") (Resolved tt)
                restyle eq_refl eq_refl) as H.
  cbn in H. destruct H as (Hreq & _ & _ & _ & Hlast).
  split; assumption.
Defined.

End DirectorTheorems.

(** ** The admin dashboard *)

Module AdminStatsTheorems.
Import Sql SqlFacts EditorFlows Policies AdminStats.
Local Open Scope nat_scope.

(** The [forEach] over the rows of [user_global_stats] leaves the two
    counts of users as they are. *)
Lemma fold_add_row {value : Type}
  (plus_or_zero : value -> option value -> value) rows : forall acc,
  totalUsers (fold_left (add_row value plus_or_zero) rows acc)
  = totalUsers acc /\
  activeUsers24h (fold_left (add_row value plus_or_zero) rows acc)
  = activeUsers24h acc.
Proof.
  induction rows as [|row rows IH]; intros acc; cbn [fold_left];
    [split; reflexivity|].
  destruct (IH (add_row value plus_or_zero acc row)) as [H1 H2].
  rewrite H1, H2. split; reflexivity.
Qed.

(** A list whose elements are all the same has at most one distinct
    element. *)
Lemma nodup_constant {A : Type} (dec : forall x y : A, {x = y} + {x <> y})
  (a : A) (l : list A) :
  (forall x, In x l -> x = a) -> List.length (nodup dec l) <= 1.
Proof.
  induction l as [|x l IH]; intros H; simpl; [lia|].
  destruct (in_dec dec x l) as [_|Hnot].
  - apply IH. intros y Hy. apply H. now right.
  - destruct l as [|y l]; [simpl; lia|].
    elim Hnot. left. rewrite (H x (or_introl eq_refl)).
    apply H. right. now left.
Qed.

(** X21: when [dop_prompt_records] is read under its policy
    (auth.uid() = user_id), [getAdminStats] counts at most one active
    user, whoever calls it and whatever the two tables hold: the rows it
    can read are the caller's own. *)
Theorem own_records_policy_shows_one_active_user {value : Type}
  (zero : value) (plus_or_zero : value -> option value -> value)
  auth_uid records now globalStats :
  activeUsers24h
    (getAdminStats value zero plus_or_zero
       (Resolved (Some (recent_activity now
                          (visible_prompt_records auth_uid records))))
       globalStats)
  <= 1.
Proof.
  unfold getAdminStats. destruct globalStats as [rows|failure];
    [|simpl; lia].
  match goal with
  | |- activeUsers24h (fold_left _ ?l ?a) <= 1 =>
      destruct (fold_add_row plus_or_zero l a) as [_ H]
  end.
  rewrite H. cbn [activeUsers24h or_empty].
  apply (nodup_constant user_id_eq_dec auth_uid).
  intros x Hx. unfold recent_activity in Hx.
  rewrite map_map in Hx. cbn [fst] in Hx.
  apply in_map_iff in Hx. destruct Hx as (r & <- & Hr).
  apply filter_In in Hr. destruct Hr as [Hr _].
  unfold visible_prompt_records in Hr. apply filter_In in Hr.
  destruct Hr as [_ Hown]. unfold own_prompt_record, uuid_eq3 in Hown.
  apply holds_cmp3 in Hown. destruct Hown as (a & b & -> & -> & Heq).
  apply N.eqb_eq in Heq. now subst.
Qed.

End AdminStatsTheorems.

(** ** Images for the model *)

Module GeminiTheorems.
Import Stdlib.Strings.Ascii.
Import EditorFlows JsString GeminiUtils.
Local Open Scope nat_scope.
Local Open Scope string_scope.

Lemma append_empty (s : string) : s ++ EmptyString = s.
Proof. induction s as [|a s IH]; simpl; congruence. Qed.

Lemma append_assoc (s t u : string) : (s ++ t) ++ u = s ++ t ++ u.
Proof. induction s as [|a s IH]; simpl; congruence. Qed.

Lemma length_append (s t : string) :
  String.length (s ++ t) = String.length s + String.length t.
Proof. induction s as [|a s IH]; simpl; congruence. Qed.

Lemma prefix_empty (s : string) : String.prefix EmptyString s = true.
Proof. destruct s; reflexivity. Qed.

Lemma prefix_append (s t : string) : String.prefix s (s ++ t) = true.
Proof.
  induction s as [|a s IH]; simpl; [apply prefix_empty|].
  destruct (Ascii.ascii_dec a a); [assumption | congruence].
Qed.

Lemma prefix_get (p : string) : forall (t : string) (i : nat),
  String.prefix p t = true -> i < String.length p ->
  String.get i t = String.get i p.
Proof.
  induction p as [|a p IH]; intros t i H Hi; [simpl in Hi; lia|].
  destruct t as [|b t]; [discriminate|].
  cbn [String.prefix] in H. cbn [String.length] in Hi.
  destruct (Ascii.ascii_dec a b) as [Hab|]; [subst b | discriminate].
  destruct i as [|i]; [reflexivity|].
  cbn [String.get]. apply IH; [assumption | lia].
Qed.

Lemma get_append_left (s t : string) : forall i,
  i < String.length s -> String.get i (s ++ t) = String.get i s.
Proof.
  induction s as [|a s IH]; intros i Hi; simpl in *; [lia|].
  destruct i as [|i]; [reflexivity|]. apply IH. lia.
Qed.

Lemma get_append_end (s : string) (c : Ascii.ascii) (t : string) :
  String.get (String.length s) (s ++ String c t) = Some c.
Proof. induction s as [|a s IH]; simpl; [reflexivity | assumption]. Qed.

Lemma split_from_skip (separator t : string) : forall (s piece : string),
  split_from separator (String.length s) piece (s ++ t)
  = split_from separator 0 piece t.
Proof.
  induction s as [|a s IH]; intros piece; simpl.
  - destruct t; reflexivity.
  - apply IH.
Qed.

Lemma split_from_here (x : Ascii.ascii) (tail rest piece : string) :
  split_from (String x tail) 0 piece (String x tail ++ rest)
  = piece :: split_from (String x tail) 0 EmptyString rest.
Proof.
  cbn [append split_from].
  change (String x (tail ++ rest)) with (String x tail ++ rest).
  rewrite prefix_append.
  replace (String.length (String x tail) - 1) with (String.length tail)
    by (cbn [String.length]; lia).
  now rewrite split_from_skip.
Qed.

(** A text that a character does not occur in. *)
Section OneCharacter.
Variable c : Ascii.ascii.

Let absent (s : string) : Prop := indexOf s (String c EmptyString) = (-1)%Z.

Lemma absent_index (s : string) :
  absent s <-> String.index 0 (String c EmptyString) s = None.
Proof.
  unfold absent, indexOf.
  destruct (String.index 0 (String c EmptyString) s); split;
    try reflexivity; try discriminate; lia.
Qed.

Lemma absent_cons (a : Ascii.ascii) (s : string) :
  absent (String a s) <-> a <> c /\ absent s.
Proof.
  rewrite !absent_index. cbn [String.index String.prefix].
  destruct (Ascii.ascii_dec c a) as [Hca|Hne].
  - rewrite prefix_empty.
    split; [discriminate | intros [H _]; congruence].
  - destruct (String.index 0 (String c EmptyString) s); split;
      try discriminate; try (intros [_ H]; discriminate H); auto.
Qed.

Lemma absent_append (s t : string) :
  absent s -> absent t -> absent (s ++ t).
Proof.
  induction s as [|a s IH]; intros Hs Ht; simpl; [assumption|].
  apply absent_cons in Hs. destruct Hs as [Ha Hs].
  apply absent_cons. auto.
Qed.

Lemma absent_get (s : string) : forall i,
  absent s -> String.get i s <> Some c.
Proof.
  induction s as [|a s IH]; intros i Hs; simpl; [discriminate|].
  apply absent_cons in Hs. destruct Hs as [Ha Hs].
  destruct i as [|i]; [congruence | auto].
Qed.

Lemma indexOf_first (s rest : string) :
  absent s ->
  indexOf (s ++ String c rest) (String c EmptyString)
  = Z.of_nat (String.length s).
Proof.
  unfold indexOf. induction s as [|a s IH]; intros Hs.
  - cbn [append String.index String.prefix].
    destruct (Ascii.ascii_dec c c); [|congruence].
    now rewrite prefix_empty.
  - apply absent_cons in Hs. destruct Hs as [Ha Hs].
    specialize (IH Hs).
    cbn [append String.index String.prefix String.length].
    destruct (Ascii.ascii_dec c a); [congruence|].
    destruct (String.index 0 (String c EmptyString) (s ++ String c rest));
      [|lia].
    f_equal. lia.
Qed.

(** Separators that end in the character, and have it nowhere else. *)
Variable body : string.
Hypothesis body_absent : absent body.

Let separator : string := body ++ String c EmptyString.

Lemma separator_cons : exists x tail, separator = String x tail.
Proof. unfold separator. destruct body; simpl; eauto. Qed.

Lemma separator_not_here (s t : string) :
  absent s -> String.length body < String.length s ->
  String.prefix separator (s ++ t) = false.
Proof.
  intros Hs Hlen.
  destruct (String.prefix separator (s ++ t)) eqn:H; [|reflexivity].
  exfalso. apply (absent_get s (String.length body) Hs).
  rewrite <- (get_append_left s t) by assumption.
  rewrite (prefix_get _ _ (String.length body) H).
  - apply get_append_end.
  - unfold separator. rewrite length_append. simpl. lia.
Qed.

Lemma separator_not_in (s : string) :
  absent s -> String.prefix separator s = false.
Proof.
  intros Hs.
  destruct (String.prefix separator s) eqn:H; [|reflexivity].
  exfalso. apply (absent_get s (String.length body) Hs).
  rewrite (prefix_get _ _ (String.length body) H).
  - apply get_append_end.
  - unfold separator. rewrite length_append. simpl. lia.
Qed.

Lemma split_from_absent (s : string) : forall piece,
  absent s -> split_from separator 0 piece s = [piece ++ s].
Proof.
  induction s as [|a s IH]; intros piece Hs.
  - simpl. now rewrite append_empty.
  - cbn [split_from]. rewrite (separator_not_in _ Hs).
    apply absent_cons in Hs. destruct Hs as [_ Hs].
    rewrite (IH _ Hs), append_assoc. reflexivity.
Qed.

Lemma split_from_first (s rest : string) : forall piece,
  absent s ->
  split_from separator 0 piece (s ++ separator ++ rest)
  = (piece ++ s) :: split_from separator 0 EmptyString rest.
Proof.
  induction s as [|a s IH]; intros piece Hs.
  - rewrite append_empty. cbn [append].
    destruct separator_cons as (x & tail & ->). apply split_from_here.
  - cbn [append split_from].
    replace (String a (s ++ separator ++ rest))
      with ((String a s ++ body) ++ String c EmptyString ++ rest)
      by (unfold separator; rewrite !append_assoc; reflexivity).
    rewrite separator_not_here.
    + replace ((s ++ body) ++ String c EmptyString ++ rest)
        with (s ++ separator ++ rest)
        by (unfold separator; rewrite !append_assoc; reflexivity).
      apply absent_cons in Hs. destruct Hs as [_ Hs].
      rewrite (IH _ Hs), append_assoc. reflexivity.
    + apply absent_append; assumption.
    + rewrite length_append. simpl. lia.
Qed.

End OneCharacter.

Lemma substring_append (s rest : string) :
  String.substring 0 (String.length s) (s ++ rest) = s.
Proof.
  induction s as [|a s IH]; simpl; [destruct rest; reflexivity|].
  now rewrite IH.
Qed.

(** The data URL of an image that has its data and its type, read in
    the way of [safeGetImageData]. *)
Lemma data_url_mimeType (type rest : string) :
  indexOf type ";" = (-1)%Z ->
  JsString.substring ("data:" ++ type ++ ";" ++ rest) 5
    (indexOf ("data:" ++ type ++ ";" ++ rest) ";")
  = type.
Proof.
  intros Hsemi.
  replace ("data:" ++ type ++ ";" ++ rest)
    with (("data:" ++ type) ++ String ";"%char rest)
    by (rewrite append_assoc; reflexivity).
  rewrite indexOf_first
    by (apply absent_append; [reflexivity | assumption]).
  unfold JsString.substring. rewrite !length_append.
  cbn [String.length].
  replace (Z.to_nat (Z.min (Z.max 5 0) _)) with 5 by lia.
  replace (Z.to_nat (Z.min (Z.max (Z.of_nat (5 + String.length type)) 0) _))
    with (5 + String.length type) by lia.
  replace (Nat.min 5 (5 + String.length type)) with 5 by lia.
  replace (Nat.max 5 (5 + String.length type) - 5)
    with (String.length type) by lia.
  rewrite append_assoc. cbn [append String.substring].
  apply substring_append.
Qed.

Lemma data_url_split (type base64 : string) :
  indexOf type "," = (-1)%Z ->
  indexOf base64 "," = (-1)%Z ->
  split ("data:" ++ type ++ ";base64," ++ base64) "base64,"
  = ["data:" ++ type ++ ";"; base64].
Proof.
  intros Hcomma Hdata. unfold split.
  replace ("data:" ++ type ++ ";base64," ++ base64)
    with (("data:" ++ type ++ ";") ++ ("base64" ++ ",") ++ base64)
    by (rewrite !append_assoc; reflexivity).
  rewrite (split_from_first ","%char "base64" eq_refl).
  - rewrite (split_from_absent ","%char "base64" _ _ Hdata).
    reflexivity.
  - apply absent_append; [reflexivity|].
    apply absent_append; [assumption | reflexivity].
Qed.

Section WithServices.
Variable trim : string -> string.
Variable fetch : string -> settled Download.
Variable generateContent :
  string -> GenerateContentParameters ->
  settled (option (list (option InlineData))).

(** The branch of [safeGetImageData] for a text that starts with
    [data:]. *)
Lemma safeGetImageData_data (imageStr : string) :
  startsWith imageStr "data:" = true ->
  safeGetImageData fetch imageStr
  = Some {| data := nth_error (split imageStr "base64,") 1;
            mimeType :=
              Some (JsString.substring imageStr 5
                      (indexOf imageStr ";")) |}.
Proof.
  intros Hstart. unfold safeGetImageData. rewrite Hstart.
  destruct imageStr; [discriminate Hstart | reflexivity].
Qed.

(** X23: [safeGetImageData] reads back the data URL that [callGeminiAPI]
    builds. For a MIME type without [;] and [,] and data without [,] (as
    base64 data are), the URL [data:<type>;base64,<data>] is taken apart
    into the same data and the same type, and nothing is downloaded. *)
Theorem data_url_round_trip (type base64 : string) :
  indexOf type ";" = (-1)%Z ->
  indexOf type "," = (-1)%Z ->
  indexOf base64 "," = (-1)%Z ->
  safeGetImageData fetch
    (data_url {| data := Some base64; mimeType := Some type |})
  = Some {| data := Some base64; mimeType := Some type |}.
Proof.
  intros Hsemi Hcomma Hdata.
  unfold data_url.
  cbn [DirectorChat.text_or_undefined data mimeType].
  rewrite safeGetImageData_data by apply prefix_append.
  rewrite (data_url_split type base64 Hcomma Hdata).
  change (";base64," ++ base64) with (";" ++ "base64," ++ base64).
  rewrite (data_url_mimeType type _ Hsemi).
  reflexivity.
Qed.

(** X24: a text that starts with [data:] and holds neither [;] nor [,]
    is not refused by [safeGetImageData]: [indexOf] answers -1,
    [substring(5, -1)] swaps its bounds, and the result has the MIME type
    [data:] and no data. *)
Theorem data_url_without_separators (imageStr : string) :
  startsWith imageStr "data:" = true ->
  indexOf imageStr ";" = (-1)%Z ->
  indexOf imageStr "," = (-1)%Z ->
  safeGetImageData fetch imageStr
  = Some {| data := None; mimeType := Some "data:" |}.
Proof.
  intros Hstart Hsemi Hcomma. unfold safeGetImageData.
  rewrite Hstart, Hsemi. unfold split.
  rewrite (split_from_absent ","%char "base64" _ _ Hcomma).
  unfold startsWith in Hstart.
  apply prefix_correct in Hstart. cbn [String.length] in Hstart.
  destruct imageStr as [|c1 [|c2 [|c3 [|c4 [|c5 rest]]]]];
    try discriminate Hstart.
  cbn [String.substring] in Hstart.
  replace rest with (rest ++ EmptyString) in Hstart at 1
    by apply append_empty.
  injection Hstart as -> -> -> -> -> _.
  unfold JsString.substring. cbn [String.length].
  replace (Z.to_nat (Z.min (Z.max 5 0) _)) with 5 by lia.
  replace (Z.to_nat (Z.min (Z.max (-1) 0) _)) with 0 by lia.
  destruct rest; reflexivity.
Qed.

(** X25: an image that [callGeminiAPI] returns can be given to the next
    call as its reference image. If the images of a response have their
    data and their type, the type without [;] and [,] and the data
    without [,], then a result of [callGeminiAPI] is the data URL of the
    first image among the parts of the response to its request, made
    with the trimmed key; [safeGetImageData] takes this URL apart into
    that image, and the request of a call with this result as
    [imageContext] carries that image, followed by the prompt. *)
Theorem generated_image_serves_as_reference (apiKey : option string)
  (prompt aspectRatio imageModel : string) (imageContext : option string)
  (url : string) :
  (forall key parameters parts image,
     generateContent key parameters = Resolved (Some parts) ->
     In (Some image) parts ->
     exists type base64,
       image = {| data := Some base64; mimeType := Some type |} /\
       indexOf type ";" = (-1)%Z /\
       indexOf type "," = (-1)%Z /\
       indexOf base64 "," = (-1)%Z) ->
  callGeminiAPI trim fetch generateContent apiKey prompt aspectRatio
    imageModel imageContext = Some url ->
  exists key response image,
    option_map trim apiKey = Some key /\
    key <> EmptyString /\
    generateContent key
      (request fetch prompt aspectRatio imageModel imageContext)
    = Resolved (Some response) /\
    find is_image response = Some (Some image) /\
    url = data_url image /\
    safeGetImageData fetch url = Some image /\
    forall prompt' aspectRatio' imageModel',
      parts (request fetch prompt' aspectRatio' imageModel' (Some url))
      = [inlineData_part image; text_part prompt'].
Proof.
  intros Himages Hcall. unfold callGeminiAPI in Hcall.
  destruct (option_map trim apiKey) as [[|k key]|]; try discriminate.
  destruct (generateContent (String k key)
              (request fetch prompt aspectRatio imageModel imageContext))
    as [[response|]|failure] eqn:Hresponse; try discriminate.
  destruct (find is_image response) as [[image|]|] eqn:Hfind;
    try discriminate.
  injection Hcall as <-.
  pose proof (find_some _ _ Hfind) as [Hin _].
  exists (String k key), response, image.
  split; [reflexivity|]. split; [discriminate|].
  split; [exact Hresponse|]. split; [exact Hfind|]. clear Hfind.
  destruct (Himages _ _ _ _ Hresponse Hin)
    as (type & base64 & -> & Hsemi & Hcomma & Hdata).
  assert (Hback :
            safeGetImageData fetch
              (data_url {| data := Some base64; mimeType := Some type |})
            = Some {| data := Some base64; mimeType := Some type |}).
  { unfold data_url.
    cbn [DirectorChat.text_or_undefined data mimeType].
    rewrite safeGetImageData_data by apply prefix_append.
    rewrite (data_url_split type base64 Hcomma Hdata).
    change (";base64," ++ base64) with (";" ++ "base64," ++ base64).
    rewrite (data_url_mimeType type _ Hsemi).
    reflexivity. }
  split; [reflexivity|]. split; [exact Hback|].
  intros prompt' aspectRatio' imageModel'.
  unfold request. rewrite Hback. reflexivity.
Qed.

End WithServices.

Lemma data_url_round_trip_witness :
  safeGetImageData GeminiExamples.offline (data_url GeminiExamples.png)
  = Some GeminiExamples.png.
Proof.
  apply (data_url_round_trip GeminiExamples.offline "image/png" "QUJD");
    reflexivity.
Defined.

Lemma data_url_without_separators_witness :
  safeGetImageData GeminiExamples.offline "data:image/png"
  = Some {| data := None; mimeType := Some "data:" |}.
Proof.
  apply (data_url_without_separators GeminiExamples.offline
           "data:image/png"); reflexivity.
Defined.

Lemma generated_image_serves_as_reference_witness :
  exists key response image,
    option_map (fun key => key) (Some "key") = Some key /\
    key <> EmptyString /\
    GeminiExamples.one_image key
      (request GeminiExamples.offline "a cat" "16:9" "gemini-2.0-flash"
         None)
    = Resolved (Some response) /\
    find is_image response = Some (Some image) /\
    "data:image/png;base64,QUJD" = data_url image /\
    safeGetImageData GeminiExamples.offline "data:image/png;base64,QUJD"
    = Some image /\
    forall prompt' aspectRatio' imageModel',
      parts (request GeminiExamples.offline prompt' aspectRatio'
               imageModel' (Some "data:image/png;base64,QUJD"))
      = [inlineData_part image; text_part prompt'].
Proof.
  apply (generated_image_serves_as_reference (fun key => key)
           GeminiExamples.offline GeminiExamples.one_image
           (Some "key") "a cat" "16:9" "gemini-2.0-flash" None).
  - intros key parameters parts image Hresponse Hin.
    injection Hresponse as <-.
    destruct Hin as [Hin|[Hin|[]]]; [discriminate|].
    injection Hin as <-.
    exists "image/png", "QUJD". repeat split; reflexivity.
  - reflexivity.
Defined.

End GeminiTheorems.
